(** * NS MCP server: a shallow embedding of the tool dispatcher, the upstream
    client, the response formatter, the argument validators and the
    session-managed HTTP transport, with the properties stated about them,
    and of the tool catalog, the port, the CORS middleware and the health
    check, with what the code shows of them.

    Layout: the definitions come first (one module per source unit), the
    lemmas and theorems follow. *)

From Stdlib Require Import ZArith Lia List Bool Ascii String Decimal DecimalString
  DecimalPos DecimalN.
From stdpp Require Import base option list strings gmap.

Local Open Scope string_scope.

(* ===================================================================== *)
(** * JavaScript values as they cross the wire *)
(* ===================================================================== *)

Module Js.

(** ** Numbers *)

(** A number, held the way [Number::toString] takes it apart: the decimal
    digits of its significand, most significant first and without zeros at
    either end, and the position of the decimal point counted from the
    first digit.  The value is [0.d1d2...dk * 10 ^ point]; zero is the digit
    [0] with the point after it.  A finite double is the number written by
    its shortest decimal digits; negative zero is not told from zero. *)
Record number : Type := { negative : bool; digits : string; point : Z }.

Definition is_digit (c : ascii) : bool :=
  let n := N_of_ascii c in ((48 <=? n) && (n <=? 57))%N.

Fixpoint all_digits (s : string) : bool :=
  match s with
  | EmptyString => true
  | String c r => is_digit c && all_digits r
  end.

Fixpoint zeros (n : nat) : string :=
  match n with O => EmptyString | S n' => String "0" (zeros n') end.

Fixpoint strip_leading_zeros (s : string) : string :=
  match s with
  | String c r => if Ascii.eqb c "0" then strip_leading_zeros r else s
  | EmptyString => s
  end.

Fixpoint strip_trailing_zeros (s : string) : string :=
  match s with
  | String c r =>
      match strip_trailing_zeros r with
      | EmptyString => if Ascii.eqb c "0" then EmptyString else String c EmptyString
      | r' => String c r'
      end
  | EmptyString => s
  end.

Definition zero : number := {| negative := false; digits := "0"; point := 1 |}.

(** The digits are digits, and none of them is a zero that could go. *)
Definition canonical (x : number) : bool :=
  if String.eqb (digits x) "0" then (point x =? 1)%Z && negb (negative x)
  else
    all_digits (digits x)
    && negb (String.eqb (digits x) EmptyString)
    && String.eqb (strip_leading_zeros (digits x)) (digits x)
    && String.eqb (strip_trailing_zeros (digits x)) (digits x).

Definition N_of_digits (s : string) : N :=
  match NilEmpty.uint_of_string s with
  | Some d => N.of_uint d
  | None => 0
  end.

Definition digits_of_N (n : N) : string := NilEmpty.string_of_uint (N.to_uint n).

(** The integer a number is, if it is one. *)
Definition number_to_Z (x : number) : option Z :=
  let k := Z.of_nat (String.length (digits x)) in
  if (k <=? point x)%Z then
    let n := Z.of_N (N_of_digits (digits x +:+ zeros (Z.to_nat (point x - k)))) in
    Some (if negative x then (- n)%Z else n)
  else None.

Definition number_of_Z (z : Z) : number :=
  match z with
  | Z0 => zero
  | Zpos p =>
      let s := digits_of_N (Npos p) in
      {| negative := false; digits := strip_trailing_zeros s;
         point := Z.of_nat (String.length s) |}
  | Zneg p =>
      let s := digits_of_N (Npos p) in
      {| negative := true; digits := strip_trailing_zeros s;
         point := Z.of_nat (String.length s) |}
  end.

(** ** Values *)

(** A JSON value.  Strings are sequences of code units below 256.  An object
    keeps its members in creation order, as a JavaScript object does. *)
#[warnings="-register-all"]
Inductive json : Type :=
| JNull
| JBool (b : bool)
| JNum (x : number)
| JStr (s : string)
| JArr (items : list json)
| JObj (members : list (string * json)).

(** An integer literal. *)
Definition JInt (z : Z) : json := JNum (number_of_Z z).

(** [o[k]]: the first member with key [k]; [None] stands for [undefined]. *)
Fixpoint assoc (k : string) (ms : list (string * json)) : option json :=
  match ms with
  | [] => None
  | (k', v) :: ms' => if String.eqb k k' then Some v else assoc k ms'
  end.

(** Property read [args.k] on a value that is neither [null] nor
    [undefined]; reading a property of a primitive gives [undefined]. *)
Definition field (args : json) (k : string) : option json :=
  match args with
  | JObj ms => assoc k ms
  | _ => None
  end.

(** JavaScript truthiness, as used by [||] and [!]. *)
Definition truthy (v : json) : bool :=
  match v with
  | JNull => false
  | JBool b => b
  | JNum x => negb (String.eqb (digits x) "0")
  | JStr s => negb (String.eqb s EmptyString)
  | JArr _ | JObj _ => true
  end.

(** [o[k] = v] on an object: an existing key keeps its position and takes
    the new value, a new key goes last. *)
Fixpoint set_member (k : string) (v : json) (ms : list (string * json))
  : list (string * json) :=
  match ms with
  | [] => [(k, v)]
  | (k', v') :: ms' =>
      if String.eqb k k' then (k, v) :: ms' else (k', v') :: set_member k v ms'
  end.

Definition keys (ms : list (string * json)) : list string := map fst ms.

(** A payload is representable when its numbers are canonical and no
    object in it repeats a key. *)
Fixpoint representable (v : json) : Prop :=
  match v with
  | JNum x => canonical x = true
  | JArr items =>
      (fix all (l : list json) : Prop :=
         match l with [] => True | x :: l' => representable x /\ all l' end) items
  | JObj ms =>
      NoDup (keys ms) /\
      (fix all (l : list (string * json)) : Prop :=
         match l with [] => True | (_, x) :: l' => representable x /\ all l' end) ms
  | _ => True
  end.

(** The same, as a test that computes. *)
Fixpoint representableb (v : json) : bool :=
  match v with
  | JNum x => canonical x
  | JArr items => forallb representableb items
  | JObj ms =>
      bool_decide (NoDup (keys ms))
      && forallb (fun kv => let '(_, x) := kv in representableb x) ms
  | _ => true
  end.

(** Number of constructors, counting one more per array item and member. *)
Fixpoint size (v : json) : nat :=
  match v with
  | JArr items =>
      S ((fix sum (l : list json) : nat :=
            match l with [] => 0 | x :: l' => S (size x + sum l') end) items)
  | JObj ms =>
      S ((fix sum (l : list (string * json)) : nat :=
            match l with [] => 0 | (_, x) :: l' => S (size x + sum l') end) ms)
  | _ => 1
  end.

Definition items_size : list json -> nat :=
  fix sum (l : list json) : nat :=
    match l with [] => 0 | x :: l' => S (size x + sum l') end.

Definition members_size : list (string * json) -> nat :=
  fix sum (l : list (string * json)) : nat :=
    match l with [] => 0 | (_, x) :: l' => S (size x + sum l') end.

End Js.
Export Js.

(* ===================================================================== *)
(** * The [JSON] object of the runtime: [stringify] with an indent of two
      and [parse] *)
(* ===================================================================== *)

Module JSON.

Definition dquote : ascii := "034"%char.
Definition backslash : ascii := "092"%char.
Definition LF : ascii := "010"%char.

Definition is_ws (c : ascii) : bool :=
  Ascii.eqb c " " || Ascii.eqb c LF || Ascii.eqb c "013" || Ascii.eqb c "009".

Fixpoint spaces (n : nat) : string :=
  match n with O => EmptyString | S n' => String " " (spaces n') end.

(** ** Numbers *)

Definition is_empty (s : string) : bool :=
  match s with EmptyString => true | String _ _ => false end.

Fixpoint take (n : nat) (s : string) : string :=
  match n, s with
  | S n', String c r => String c (take n' r)
  | _, _ => EmptyString
  end.

Fixpoint drop (n : nat) (s : string) : string :=
  match n, s with
  | S n', String c r => drop n' r
  | _, _ => s
  end.

(** [Number::toString] for radix 10, without the sign: with [k] digits and
    the point at [n], plain digits and zeros when [k <= n <= 21], digits
    around a point when [0 < n <= 21], a zero, a point and zeros before the
    digits when [-6 < n <= 0], and else the exponent form. *)
Definition unsigned_to_string (x : number) : string :=
  let s := digits x in
  let k := Z.of_nat (String.length s) in
  let n := point x in
  if ((k <=? n) && (n <=? 21))%Z then s +:+ zeros (Z.to_nat (n - k))
  else if ((0 <? n) && (n <=? 21))%Z then
    take (Z.to_nat n) s +:+ "." +:+ drop (Z.to_nat n) s
  else if ((-6 <? n) && (n <=? 0))%Z then "0." +:+ zeros (Z.to_nat (- n)) +:+ s
  else
    match s with
    | String d rest =>
        String d (if is_empty rest then EmptyString else "." +:+ rest)
          +:+ "e" +:+ (if (n - 1 <? 0)%Z then "-" else "+")
          +:+ digits_of_N (Z.to_N (Z.abs (n - 1)))
    | EmptyString => EmptyString
    end.

Definition number_to_string (x : number) : string :=
  if negative x then String "-" (unsigned_to_string x) else unsigned_to_string x.

(** The longest run of decimal digits at the head of [s]. *)
Fixpoint read_digits (s : string) : string * string :=
  match s with
  | String c r =>
      if is_digit c then let '(ds, r') := read_digits r in (String c ds, r')
      else (EmptyString, s)
  | EmptyString => (EmptyString, s)
  end.

Definition parse_fraction (s : string) : option (string * string) :=
  match s with
  | String c r =>
      if Ascii.eqb c "." then
        let '(f, r') := read_digits r in
        if is_empty f then None else Some (f, r')
      else Some (EmptyString, s)
  | EmptyString => Some (EmptyString, s)
  end.

Definition parse_exponent_digits (neg : bool) (s : string) : option (Z * string) :=
  let '(e, r) := read_digits s in
  if is_empty e then None
  else let n := Z.of_N (N_of_digits e) in Some (if neg then (- n)%Z else n, r).

Definition parse_exponent (s : string) : option (Z * string) :=
  match s with
  | String c r =>
      if Ascii.eqb c "e" || Ascii.eqb c "E" then
        match r with
        | String sign r' =>
            if Ascii.eqb sign "+" then parse_exponent_digits false r'
            else if Ascii.eqb sign "-" then parse_exponent_digits true r'
            else parse_exponent_digits false r
        | EmptyString => None
        end
      else Some (0%Z, s)
  | EmptyString => Some (0%Z, s)
  end.

(** The number with digits [ds] and the point after the first [p] of them. *)
Definition normalize (neg : bool) (ds : string) (p : Z) : number :=
  let ds1 := strip_leading_zeros ds in
  let p1 := (p - (Z.of_nat (String.length ds) - Z.of_nat (String.length ds1)))%Z in
  let ds2 := strip_trailing_zeros ds1 in
  if is_empty ds2 then zero else {| negative := neg; digits := ds2; point := p1 |}.

(** A number literal after its sign: an integer part without a superfluous
    leading zero, then a fraction and an exponent if there are any. *)
Definition parse_number (neg : bool) (s : string) : option (number * string) :=
  let '(i, r1) := read_digits s in
  if is_empty i then None
  else if negb (String.eqb i "0") && negb (String.eqb (strip_leading_zeros i) i) then None
  else
    '(f, r2) ← parse_fraction r1;
    '(e, r3) ← parse_exponent r2;
    Some (normalize neg (i +:+ f) (Z.of_nat (String.length i) + e), r3).

(** ** Strings *)

Definition hex_char (n : N) : ascii :=
  if (n <? 10)%N then ascii_of_N (48 + n) else ascii_of_N (87 + n).

Definition hex_value (c : ascii) : option N :=
  let n := N_of_ascii c in
  if ((48 <=? n) && (n <=? 57))%N then Some (n - 48)%N
  else if ((97 <=? n) && (n <=? 102))%N then Some (n - 87)%N
  else if ((65 <=? n) && (n <=? 70))%N then Some (n - 55)%N
  else None.

(** One code unit inside a quoted string. *)
Definition escape (c : ascii) : string :=
  let n := N_of_ascii c in
  if (n =? 8)%N then "\b" else if (n =? 9)%N then "\t"
  else if (n =? 10)%N then "\n" else if (n =? 12)%N then "\f"
  else if (n =? 13)%N then "\r"
  else if (n =? 34)%N then String backslash (String dquote EmptyString)
  else if (n =? 92)%N then String backslash (String backslash EmptyString)
  else if (n <? 32)%N then
    String backslash
      (String "u" (String "0" (String "0"
         (String (hex_char (n / 16)) (String (hex_char (n mod 16)) EmptyString)))))
  else String c EmptyString.

Fixpoint quote_body (s : string) : string :=
  match s with
  | EmptyString => String dquote EmptyString
  | String c r => escape c +:+ quote_body r
  end.

Definition quote (s : string) : string := String dquote (quote_body s).

Definition unescape (e : ascii) : option ascii :=
  if Ascii.eqb e dquote then Some dquote
  else if Ascii.eqb e backslash then Some backslash
  else if Ascii.eqb e "/" then Some "/"%char
  else if Ascii.eqb e "b" then Some "008"%char
  else if Ascii.eqb e "f" then Some "012"%char
  else if Ascii.eqb e "n" then Some "010"%char
  else if Ascii.eqb e "r" then Some "013"%char
  else if Ascii.eqb e "t" then Some "009"%char
  else None.

Definition unicode_escape (h1 h2 h3 h4 : ascii) : option ascii :=
  match hex_value h1, hex_value h2, hex_value h3, hex_value h4 with
  | Some a, Some b, Some c, Some d =>
      let n := (((a * 16 + b) * 16 + c) * 16 + d)%N in
      if (n <? 256)%N then Some (ascii_of_N n) else None
  | _, _, _, _ => None
  end.

(** The characters after an opening quote, up to the closing one. *)
Fixpoint parse_string_body (s : string) : option (string * string) :=
  match s with
  | EmptyString => None
  | String c r =>
      if Ascii.eqb c dquote then Some (EmptyString, r)
      else if Ascii.eqb c backslash then
        match r with
        | String e r1 =>
            if Ascii.eqb e "u" then
              match r1 with
              | String h1 (String h2 (String h3 (String h4 r2))) =>
                  match unicode_escape h1 h2 h3 h4, parse_string_body r2 with
                  | Some c', Some (str, r') => Some (String c' str, r')
                  | _, _ => None
                  end
              | _ => None
              end
            else
              match unescape e, parse_string_body r1 with
              | Some c', Some (str, r') => Some (String c' str, r')
              | _, _ => None
              end
        | EmptyString => None
        end
      else if (N_of_ascii c <? 32)%N then None
      else
        match parse_string_body r with
        | Some (str, r') => Some (String c str, r')
        | None => None
        end
  end.

(** ** Values *)

(** [JSON.stringify(v, null, 2)] at the current indentation. *)
Fixpoint stringify_at (indent : nat) (v : json) : string :=
  match v with
  | JNull => "null"
  | JBool true => "true"
  | JBool false => "false"
  | JNum x => number_to_string x
  | JStr s => quote s
  | JArr [] => "[]"
  | JArr (x :: xs) =>
      let inner := (2 + indent)%nat in
      String "[" (String LF (spaces inner +:+ stringify_at inner x +:+
        (fix more (l : list json) : string :=
           match l with
           | [] => String LF (spaces indent +:+ "]")
           | y :: l' =>
               String "," (String LF (spaces inner +:+ stringify_at inner y +:+ more l'))
           end) xs))
  | JObj [] => "{}"
  | JObj ((k, x) :: ms) =>
      let inner := (2 + indent)%nat in
      String "{" (String LF (spaces inner +:+ quote k +:+ ": " +:+ stringify_at inner x +:+
        (fix more (l : list (string * json)) : string :=
           match l with
           | [] => String LF (spaces indent +:+ "}")
           | (k', y) :: l' =>
               String "," (String LF (spaces inner +:+ quote k' +:+ ": "
                 +:+ stringify_at inner y +:+ more l'))
           end) ms))
  end.

Definition stringify (v : json) : string := stringify_at 0 v.

(** What follows the first item of an array, and the first member of an
    object, in the text [stringify_at] writes. *)
Definition items_tail (indent : nat) : list json -> string :=
  fix more (l : list json) : string :=
    match l with
    | [] => String LF (spaces indent +:+ "]")
    | y :: l' =>
        String "," (String LF (spaces (2 + indent)
          +:+ stringify_at (2 + indent) y +:+ more l'))
    end.

Definition members_tail (indent : nat) : list (string * json) -> string :=
  fix more (l : list (string * json)) : string :=
    match l with
    | [] => String LF (spaces indent +:+ "}")
    | (k', y) :: l' =>
        String "," (String LF (spaces (2 + indent) +:+ quote k' +:+ ": "
          +:+ stringify_at (2 + indent) y +:+ more l'))
    end.

(** The next character, if any, is not a digit. *)
Definition ends_digits (rest : string) : Prop :=
  match rest with
  | EmptyString => True
  | String c _ => is_digit c = false
  end.

(** The next character, if any, does not continue a number literal. *)
Definition ends_number (rest : string) : Prop :=
  match rest with
  | EmptyString => True
  | String c _ =>
      is_digit c = false /\ Ascii.eqb c "." = false
      /\ Ascii.eqb c "e" = false /\ Ascii.eqb c "E" = false
  end.

Fixpoint skip_ws (s : string) : string :=
  match s with
  | String c r => if is_ws c then skip_ws r else s
  | EmptyString => s
  end.

(** [expect p s]: [s] without its prefix [p]. *)
Fixpoint expect (p s : string) : option string :=
  match p, s with
  | EmptyString, _ => Some s
  | String a p', String b s' => if Ascii.eqb a b then expect p' s' else None
  | String _ _, EmptyString => None
  end.

(** Members as read, turned into an object: a repeated key keeps its first
    position and its last value. *)
Definition object_of (ms : list (string * json)) : json :=
  JObj (fold_left (fun acc kv => set_member (fst kv) (snd kv) acc) ms []).

(** Recursive descent; [fuel] bounds the nesting of calls. *)
Fixpoint parse_value (fuel : nat) (s : string) : option (json * string) :=
  match fuel with
  | O => None
  | S fuel' =>
      match skip_ws s with
      | EmptyString => None
      | String c r =>
          if Ascii.eqb c "n" then r' ← expect "ull" r; Some (JNull, r')
          else if Ascii.eqb c "t" then r' ← expect "rue" r; Some (JBool true, r')
          else if Ascii.eqb c "f" then r' ← expect "alse" r; Some (JBool false, r')
          else if Ascii.eqb c dquote then
            '(str, r') ← parse_string_body r; Some (JStr str, r')
          else if Ascii.eqb c "-" then
            '(x, r') ← parse_number true r; Some (JNum x, r')
          else if is_digit c then
            '(x, r') ← parse_number false (String c r); Some (JNum x, r')
          else if Ascii.eqb c "[" then
            match skip_ws r with
            | String c' r' =>
                if Ascii.eqb c' "]" then Some (JArr [], r')
                else '(vs, r'') ← parse_elements fuel' r; Some (JArr vs, r'')
            | EmptyString => None
            end
          else if Ascii.eqb c "{" then
            match skip_ws r with
            | String c' r' =>
                if Ascii.eqb c' "}" then Some (JObj [], r')
                else '(ms, r'') ← parse_members fuel' r; Some (object_of ms, r'')
            | EmptyString => None
            end
          else None
      end
  end
with parse_elements (fuel : nat) (s : string) : option (list json * string) :=
  match fuel with
  | O => None
  | S fuel' =>
      '(v, r) ← parse_value fuel' s;
      match skip_ws r with
      | String c r' =>
          if Ascii.eqb c "," then
            '(vs, r'') ← parse_elements fuel' r'; Some (v :: vs, r'')
          else if Ascii.eqb c "]" then Some ([v], r')
          else None
      | EmptyString => None
      end
  end
with parse_members (fuel : nat) (s : string)
  : option (list (string * json) * string) :=
  match fuel with
  | O => None
  | S fuel' =>
      match skip_ws s with
      | String q r0 =>
          if Ascii.eqb q dquote then
            '(k, r1) ← parse_string_body r0;
            match skip_ws r1 with
            | String colon r2 =>
                if Ascii.eqb colon ":" then
                  '(v, r3) ← parse_value fuel' r2;
                  match skip_ws r3 with
                  | String c r4 =>
                      if Ascii.eqb c "," then
                        '(ms, r5) ← parse_members fuel' r4; Some ((k, v) :: ms, r5)
                      else if Ascii.eqb c "}" then Some ([(k, v)], r4)
                      else None
                  | EmptyString => None
                  end
                else None
            | EmptyString => None
            end
          else None
      | EmptyString => None
      end
  end.

(** [JSON.parse(text)]: one value, then only white space. *)
Definition parse (text : string) : option json :=
  '(v, r) ← parse_value (S (String.length text)) text;
  match skip_ws r with
  | EmptyString => Some v
  | String _ _ => None
  end.

(** Writing a value and reading it back at any indentation, in front of
    any text that does not continue a number. *)
Definition round_trips (v : json) : Prop :=
  forall indent rest fuel,
    size v <= fuel -> ends_number rest ->
    parse_value fuel (stringify_at indent v +:+ rest) = Some (v, rest).

(** The first character of a written value: what [parse_value] needs to
    know about it before it looks at the rest. *)
Definition starts_value (c : ascii) : Prop :=
  is_ws c = false /\ Ascii.eqb c "]" = false /\ Ascii.eqb c "}" = false.

Ltac enough_fuel fuel H :=
  destruct fuel as [ | fuel ]; [ simpl in H; lia | ].

End JSON.

(* ===================================================================== *)
(** * [Date.prototype.toISOString] on a time value *)
(* ===================================================================== *)

Module Date.
Local Open Scope Z_scope.

Definition msPerDay : Z := 86400000.

(** Year, month (1..12) and day of month (1..31) of a day number counted
    from 1970-01-01, in the proleptic Gregorian calendar. *)
Definition civil_from_days (days : Z) : Z * Z * Z :=
  let z := days + 719468 in
  let era := z / 146097 in
  let doe := z - era * 146097 in
  let yoe := (doe - doe / 1460 + doe / 36524 - doe / 146096) / 365 in
  let doy := doe - (365 * yoe + yoe / 4 - yoe / 100) in
  let mp := (5 * doy + 2) / 153 in
  let d := doy - (153 * mp + 2) / 5 + 1 in
  let m := if mp <? 10 then mp + 3 else mp - 9 in
  let y := yoe + era * 400 + (if m <=? 2 then 1 else 0) in
  (y, m, d).

Definition digit_char (d : Z) : ascii := ascii_of_N (48 + Z.to_N (d mod 10)).

(** The last [width] decimal digits of [n], most significant first. *)
Fixpoint pad (width : nat) (n : Z) : string :=
  match width with
  | O => EmptyString
  | S w => pad w (n / 10) +:+ String (digit_char n) EmptyString
  end.

Definition year_string (y : Z) : string :=
  if (0 <=? y) && (y <=? 9999) then pad 4 y
  else if y <? 0 then String "-" (pad 6 (- y))
  else String "+" (pad 6 y).

Definition toISOString (t : Z) : string :=
  let '(y, m, d) := civil_from_days (t / msPerDay) in
  let ms := t mod msPerDay in
  year_string y +:+ "-" +:+ pad 2 m +:+ "-" +:+ pad 2 d +:+ "T"
    +:+ pad 2 (ms / 3600000) +:+ ":" +:+ pad 2 (ms / 60000 mod 60) +:+ ":"
    +:+ pad 2 (ms / 1000 mod 60) +:+ "." +:+ pad 3 (ms mod 1000) +:+ "Z".

(** [matches pat s]: [s] has the shape [pat], where [d] in the pattern
    stands for any decimal digit and every other character for itself. *)
Fixpoint matches (pat s : string) : bool :=
  match pat, s with
  | EmptyString, EmptyString => true
  | String p pat', String c s' =>
      (if Ascii.eqb p "d" then is_digit c else Ascii.eqb p c) && matches pat' s'
  | _, _ => false
  end.

(** The ISO-8601 extended format of a UTC instant, with a four-digit year
    or a signed six-digit one. *)
Definition is_iso8601 (s : string) : bool :=
  matches "dddd-dd-ddTdd:dd:dd.dddZ" s
  || matches "+dddddd-dd-ddTdd:dd:dd.dddZ" s
  || matches "-dddddd-dd-ddTdd:dd:dd.dddZ" s.

(** The pattern of [width] digits. *)
Fixpoint digits (width : nat) : string :=
  match width with O => EmptyString | S w => String "d" (digits w) end.

End Date.

(* ===================================================================== *)
(** * Computations that may throw *)
(* ===================================================================== *)

(** The protocol error kinds the server raises: [ErrorCode.InvalidParams]
    and [ErrorCode.MethodNotFound] in the handler, the internal error in the
    formatter. *)
Inductive ErrorCode : Type := InvalidParams | MethodNotFound | InternalError.

(** A value caught by a [catch] clause. *)
Inductive Thrown : Type :=
| ThrownMcp (code : ErrorCode) (message : string)
    (* an [McpError] *)
| ThrownAxios (status : option Z) (upstreamMessage : string)
    (* an upstream HTTP error: network failure or non-2xx response *)
| ThrownError (message : string)
    (* a plain [Error] *)
| ThrownValue (v : json)
    (* [throw v] for a value that is not an error object *)
| ThrownUndefined.

Inductive Result (A : Type) : Type :=
| Ok (a : A)
| Throw (e : Thrown).
Arguments Ok {A} a.
Arguments Throw {A} e.

(* ===================================================================== *)
(** * src/utils/ResponseFormatter.ts *)
(* ===================================================================== *)

Module ResponseFormatter.

(** Modelled from the spec: the content item of a tool result, "a single
    text-content item". *)
Record TextContent : Type := { type : string; text : string }.

(** Modelled from the spec: the result of a tool call, "a success-or-error
    envelope"; the error envelope is "{code: one of a small closed set of
    protocol error kinds, message: human-readable text}". *)
Inductive Envelope : Type :=
| SuccessEnvelope (content : list TextContent)
| ErrorEnvelope (code : ErrorCode) (message : string).

(** Modelled from the spec: [ResponseFormatter.formatSuccess]
    (src/utils/ResponseFormatter.ts).  "Wraps an arbitrary payload into the
    protocol's expected content envelope (a single text-content item
    containing the JSON-serialized payload, pretty-printed)". *)
Definition formatSuccess (data : json) : Envelope :=
  SuccessEnvelope [ {| type := "text"; text := JSON.stringify data |} ].

(** Modelled from the spec: [ResponseFormatter.createMcpError].  "A helper
    constructs protocol error objects carrying one of: invalid-parameters,
    method-not-found, internal-error." *)
Definition createMcpError (code : ErrorCode) (message : string) : Thrown :=
  ThrownMcp code message.

(** Modelled from the spec: the "stable message" of the internal error
    that [ResponseFormatter.formatError] returns for a thrown value that
    carries no message of its own; the spec fixes only that it does not
    vary, and no statement below depends on which text it is. *)
Definition stableMessage : string := "An unexpected error occurred".

(** Modelled from the spec: [ResponseFormatter.formatError].  "Given a
    caught value, determines whether it is already a protocol-level error
    (passes it through), an upstream HTTP error (maps the upstream status
    into a generic internal/upstream failure protocol error code,
    preserving the upstream message), or an unrecognized failure (maps to
    a generic internal error code with a stable message)."  Of the
    failures of the third kind the spec says more for the configuration
    error, a plain [Error]: it is "surfaced as an internal error to the
    tool caller", and the call "returns an internal error whose message
    identifies the missing configuration".  So the internal error made of
    an error object carries the message of that object, as the one made of
    an upstream error carries the upstream message; only a thrown value
    without a message gets the fixed one. *)
Definition formatError (error : Thrown) : Result Envelope :=
  match error with
  | ThrownMcp code message => Ok (ErrorEnvelope code message)
  | ThrownAxios _ upstreamMessage => Ok (ErrorEnvelope InternalError upstreamMessage)
  | ThrownError message => Ok (ErrorEnvelope InternalError message)
  | ThrownValue _ | ThrownUndefined =>
      Ok (ErrorEnvelope InternalError stableMessage)
  end.

(** The envelope is an error envelope. *)
Definition is_error (e : Envelope) : bool :=
  match e with ErrorEnvelope _ _ => true | SuccessEnvelope _ => false end.

End ResponseFormatter.

(* ===================================================================== *)
(** * src/types.ts: the argument validators *)
(* ===================================================================== *)

Module Types.

(** Modelled from the spec: the validators of src/types.ts, "declarative
    conjunctions of: field X, if present, must be of primitive type T;
    field X must be one of enumerated set {..}; at least one of fields
    {A, B} must be present".  First the tests on one value. *)
Definition isString (v : json) : bool :=
  match v with JStr _ => true | _ => false end.

Definition isBoolean (v : json) : bool :=
  match v with JBool _ => true | _ => false end.

(** The integer a value is, if it is a number without a fraction. *)
Definition integerOf (v : json) : option Z :=
  match v with JNum x => number_to_Z x | _ => None end.

Definition isIntegerFrom (lo : Z) (v : json) : bool :=
  match integerOf v with Some n => (lo <=? n)%Z | None => false end.

Definition isIntegerIn (lo hi : Z) (v : json) : bool :=
  match integerOf v with Some n => (lo <=? n)%Z && (n <=? hi)%Z | None => false end.

Definition isOneOf (allowed : list string) (v : json) : bool :=
  match v with
  | JStr s => existsb (String.eqb s) allowed
  | _ => false
  end.

Definition isObject (v : json) : bool :=
  match v with JObj _ => true | _ => false end.

(** Modelled from the spec: "field X, if present, must be of primitive
    type T"; "validators must treat an absent optional field as valid". *)
Definition optional (args : json) (k : string) (p : json -> bool) : bool :=
  match field args k with
  | None => true
  | Some v => p v
  end.

(** Modelled from the spec: a required field is present and of its type;
    "removing any required field must make it return false". *)
Definition required (args : json) (k : string) (p : json -> bool) : bool :=
  match field args k with
  | None => false
  | Some v => p v
  end.

(** Modelled from the spec: a field "must be present". *)
Definition present (args : json) (k : string) : bool :=
  match field args k with Some _ => true | None => false end.

(** Modelled from the spec: [isValidDisruptionsArgs]; [get_disruptions]
    takes "optional isActive: bool, type: enum[MAINTENANCE,DISRUPTION]". *)
Definition isValidDisruptionsArgs (args : json) : bool :=
  isObject args
  && optional args "isActive" isBoolean
  && optional args "type" (isOneOf ["MAINTENANCE"; "DISRUPTION"]).

(** Modelled from the spec: [isValidTravelAdviceArgs]; "required
    fromStation, toStation; optional dateTime, searchForArrival: bool". *)
Definition isValidTravelAdviceArgs (args : json) : bool :=
  isObject args
  && required args "fromStation" isString
  && required args "toStation" isString
  && optional args "dateTime" isString
  && optional args "searchForArrival" isBoolean.

(** Modelled from the spec: the rules on the fields of a departures or
    arrivals bag, "optional dateTime, maxJourneys: int 1-100, lang:
    enum[nl,en]", with [station] and [uicCode] strings when present. *)
Definition stationBoardFields (args : json) : bool :=
  isObject args
  && optional args "station" isString
  && optional args "uicCode" isString
  && optional args "dateTime" isString
  && optional args "maxJourneys" (isIntegerIn 1 100)
  && optional args "lang" (isOneOf ["nl"; "en"]).

(** Modelled from the spec: "station OR uicCode required"; "at least one
    of fields {A, B} must be present". *)
Definition stationBoardArgs (args : json) : bool :=
  (present args "station" || present args "uicCode") && stationBoardFields args.

(** Modelled from the spec: [isValidDeparturesArgs]. *)
Definition isValidDeparturesArgs (args : json) : bool := stationBoardArgs args.

(** Modelled from the spec: [isValidArrivalsArgs]. *)
Definition isValidArrivalsArgs (args : json) : bool := stationBoardArgs args.

(** Modelled from the spec: [isValidOVFietsArgs]; "required stationCode". *)
Definition isValidOVFietsArgs (args : json) : bool :=
  isObject args && required args "stationCode" isString.

(** Modelled from the spec: [isValidStationInfoArgs]; "required query;
    optional includeNonPlannableStations: bool, limit: int 1-50". *)
Definition isValidStationInfoArgs (args : json) : bool :=
  isObject args
  && required args "query" isString
  && optional args "includeNonPlannableStations" isBoolean
  && optional args "limit" (isIntegerIn 1 50).

(** Modelled from the spec: [isValidPricesArgs]; "required fromStation,
    toStation; optional travelClass enum, travelType enum[single,return],
    isJointJourney bool, adults int >= 1, children int >= 0, routeId,
    plannedDepartureTime, plannedArrivalTime". *)
Definition isValidPricesArgs (args : json) : bool :=
  isObject args
  && required args "fromStation" isString
  && required args "toStation" isString
  && optional args "travelClass" (isOneOf ["FIRST_CLASS"; "SECOND_CLASS"])
  && optional args "travelType" (isOneOf ["single"; "return"])
  && optional args "isJointJourney" isBoolean
  && optional args "adults" (isIntegerFrom 1)
  && optional args "children" (isIntegerFrom 0)
  && optional args "routeId" isString
  && optional args "plannedDepartureTime" isString
  && optional args "plannedArrivalTime" isString.

End Types.

(* ===================================================================== *)
(** * src/services/NSApiService.ts *)
(* ===================================================================== *)

Module NSApiService.

(** A GET request as it leaves the process. *)
Record HttpGet : Type := {
  url : string;
  headers : list (string * option string);
  params : list (string * json)
}.

(** A computation that may issue requests and may throw: it maps the log
    of the requests issued so far to its outcome and the extended log. *)
Definition Net (A : Type) : Type := list HttpGet -> Result A * list HttpGet.

Definition ret {A} (a : A) : Net A := fun log => (Ok a, log).

Definition throw {A} (e : Thrown) : Net A := fun log => (Throw e, log).

Definition bind {A B} (m : Net A) (k : A -> Net B) : Net B :=
  fun log =>
    match m log with
    | (Ok a, log') => k a log'
    | (Throw e, log') => (Throw e, log')
    end.

Definition try_catch {A} (body : Net A) (handler : Thrown -> Net A) : Net A :=
  fun log =>
    match body log with
    | (Ok a, log') => (Ok a, log')
    | (Throw e, log') => handler e log'
    end.

Definition lift {A} (r : Result A) : Net A := fun log => (r, log).

Declare Scope net_scope.
Delimit Scope net_scope with net.
Notation "x <- m ;; k" := (bind m (fun x => k))
  (at level 100, m at next level, right associativity) : net_scope.
Notation "m ;;; k" := (bind m (fun _ => k))
  (at level 100, right associativity) : net_scope.
Local Open Scope net_scope.

(** The service object: the credential and the axios instance, the latter
    seen as the answer of the upstream API to each request. *)
Record t : Type := {
  apiKey : option string;
  axiosInstance : HttpGet -> Result json
}.

Definition BASE_URL : string := "https://gateway.apiportal.ns.nl".

Module ENDPOINTS.
Definition DISRUPTIONS : string := "/disruptions/v3".
Definition TRIPS : string := "/reisinformatie-api/api/v3/trips".
Definition DEPARTURES : string := "/reisinformatie-api/api/v2/departures".
Definition ARRIVALS : string := "/reisinformatie-api/api/v2/arrivals".
Definition PRICES : string := "/reisinformatie-api/api/v3/price".
Definition OVFIETS : string := "/places-api/v2/ovfiets".
Definition STATIONS : string := "/nsapp-stations/v3".
End ENDPOINTS.

(** [!this.apiKey] *)
Definition apiKeyMissing (svc : t) : bool :=
  match apiKey svc with
  | None => true
  | Some k => String.eqb k EmptyString
  end.

Definition configurationMessage : string :=
  "NS_API_KEY is not configured. Please provide your NS API key in the server configuration.".

Definition ensureApiKeyConfigured (svc : t) : Net unit :=
  if apiKeyMissing svc then throw (ThrownError configurationMessage) else ret tt.

(** axios leaves out of the query every parameter that is [undefined] or
    [null]. *)
Fixpoint serialize (ps : list (string * option json)) : list (string * json) :=
  match ps with
  | [] => []
  | (k, Some JNull) :: ps' | (k, None) :: ps' => serialize ps'
  | (k, Some v) :: ps' => (k, v) :: serialize ps'
  end.

(** [this.axiosInstance.get(endpoint, { params })], then [response.data] *)
Definition get (svc : t) (endpoint : string) (ps : list (string * option json))
  : Net json :=
  fun log =>
    let request := {| url := BASE_URL +:+ endpoint;
                      headers := [("Ocp-Apim-Subscription-Key", apiKey svc)];
                      params := serialize ps |} in
    (axiosInstance svc request, (log ++ [request])%list).

(** [a ?? b] *)
Definition nullish (a : option json) (b : json) : option json :=
  match a with
  | None | Some JNull => Some b
  | Some v => Some v
  end.

Definition disruptionsParams (args : json) : list (string * option json) :=
  [("isActive", field args "isActive"); ("type", field args "type")].

Definition getDisruptions (svc : t) (args : json) : Net json :=
  ensureApiKeyConfigured svc ;;;
  get svc ENDPOINTS.DISRUPTIONS (disruptionsParams args).

Definition travelAdviceParams (args : json) : list (string * option json) :=
  [("fromStation", field args "fromStation");
   ("toStation", field args "toStation");
   ("dateTime", field args "dateTime");
   ("searchForArrival", field args "searchForArrival")].

Definition getTravelAdvice (svc : t) (args : json) : Net json :=
  ensureApiKeyConfigured svc ;;;
  get svc ENDPOINTS.TRIPS (travelAdviceParams args).

Definition departuresParams (args : json) : list (string * option json) :=
  [("station", field args "station");
   ("dateTime", field args "dateTime");
   ("maxJourneys", field args "maxJourneys");
   ("lang", field args "lang")].

Definition getDepartures (svc : t) (args : json) : Net json :=
  ensureApiKeyConfigured svc ;;;
  get svc ENDPOINTS.DEPARTURES (departuresParams args).

Definition ovFietsParams (args : json) : list (string * option json) :=
  [("station_code", field args "stationCode")].

Definition getOVFiets (svc : t) (args : json) : Net json :=
  ensureApiKeyConfigured svc ;;;
  get svc ENDPOINTS.OVFIETS (ovFietsParams args).

Definition stationInfoParams (args : json) : list (string * option json) :=
  [("q", field args "query");
   ("includeNonPlannableStations",
     nullish (field args "includeNonPlannableStations") (JBool false));
   ("limit", nullish (field args "limit") (JInt 10))].

Definition getStationInfo (svc : t) (args : json) : Net json :=
  ensureApiKeyConfigured svc ;;;
  get svc ENDPOINTS.STATIONS (stationInfoParams args).

Definition arrivalsParams (args : json) : list (string * option json) :=
  [("station", field args "station");
   ("uicCode", field args "uicCode");
   ("dateTime", field args "dateTime");
   ("maxJourneys", field args "maxJourneys");
   ("lang", field args "lang")].

Definition getArrivals (svc : t) (args : json) : Net json :=
  ensureApiKeyConfigured svc ;;;
  get svc ENDPOINTS.ARRIVALS (arrivalsParams args).

Definition pricesParams (args : json) : list (string * option json) :=
  [("fromStation", field args "fromStation");
   ("toStation", field args "toStation");
   ("travelClass", field args "travelClass");
   ("travelType", field args "travelType");
   ("isJointJourney", field args "isJointJourney");
   ("adults", field args "adults");
   ("children", field args "children");
   ("routeId", field args "routeId");
   ("plannedDepartureTime", field args "plannedDepartureTime");
   ("plannedArrivalTime", field args "plannedArrivalTime")].

Definition getPrices (svc : t) (args : json) : Net json :=
  ensureApiKeyConfigured svc ;;;
  get svc ENDPOINTS.PRICES (pricesParams args).

(** The seven methods, for statements that range over all of them. *)
Inductive Method : Type :=
| GetDisruptions | GetTravelAdvice | GetDepartures | GetOVFiets
| GetStationInfo | GetArrivals | GetPrices.

Definition call (m : Method) : t -> json -> Net json :=
  match m with
  | GetDisruptions => getDisruptions
  | GetTravelAdvice => getTravelAdvice
  | GetDepartures => getDepartures
  | GetOVFiets => getOVFiets
  | GetStationInfo => getStationInfo
  | GetArrivals => getArrivals
  | GetPrices => getPrices
  end.

Definition endpoint (m : Method) : string :=
  match m with
  | GetDisruptions => ENDPOINTS.DISRUPTIONS
  | GetTravelAdvice => ENDPOINTS.TRIPS
  | GetDepartures => ENDPOINTS.DEPARTURES
  | GetOVFiets => ENDPOINTS.OVFIETS
  | GetStationInfo => ENDPOINTS.STATIONS
  | GetArrivals => ENDPOINTS.ARRIVALS
  | GetPrices => ENDPOINTS.PRICES
  end.

(** The query of the request a method sends for [args]. *)
Definition query (m : Method) (args : json) : list (string * json) :=
  serialize
    match m with
    | GetDisruptions => disruptionsParams args
    | GetTravelAdvice => travelAdviceParams args
    | GetDepartures => departuresParams args
    | GetOVFiets => ovFietsParams args
    | GetStationInfo => stationInfoParams args
    | GetArrivals => arrivalsParams args
    | GetPrices => pricesParams args
    end.

(** The fields of each method's argument record, as the tool catalog
    declares them (the record types live in src/types.ts). *)
Definition declaredFields (m : Method) : list string :=
  match m with
  | GetDisruptions => ["isActive"; "type"]
  | GetTravelAdvice => ["fromStation"; "toStation"; "dateTime"; "searchForArrival"]
  | GetDepartures | GetArrivals =>
      ["station"; "uicCode"; "dateTime"; "maxJourneys"; "lang"]
  | GetOVFiets => ["stationCode"]
  | GetStationInfo => ["query"; "includeNonPlannableStations"; "limit"]
  | GetPrices =>
      ["fromStation"; "toStation"; "travelClass"; "travelType"; "isJointJourney";
       "adults"; "children"; "routeId"; "plannedDepartureTime"; "plannedArrivalTime"]
  end.

(** The query parameter that carries a field. *)
Definition paramName (m : Method) (fieldName : string) : string :=
  match m with
  | GetOVFiets => if String.eqb fieldName "stationCode" then "station_code" else fieldName
  | GetStationInfo => if String.eqb fieldName "query" then "q" else fieldName
  | _ => fieldName
  end.

(** The value [getStationInfo] sends for a field that is absent. *)
Definition defaultOf (m : Method) (fieldName : string) : option json :=
  match m with
  | GetStationInfo =>
      if String.eqb fieldName "includeNonPlannableStations" then Some (JBool false)
      else if String.eqb fieldName "limit" then Some (JInt 10)
      else None
  | _ => None
  end.

(** Run a list of calls one after the other on the same service object. *)
Fixpoint runAll (svc : t) (calls : list (Method * json)) (log : list HttpGet)
  : list (Result json) * list HttpGet :=
  match calls with
  | [] => ([], log)
  | (m, args) :: rest =>
      let '(r, log') := call m svc args log in
      let '(rs, log'') := runAll svc rest log' in
      (r :: rs, log'')
  end.

(** A field [f] of the record [args] given to method [m] is passed or
    omitted: provided, its value is in the query; absent, no parameter of
    its name is. *)
Definition passedOrOmitted (m : Method) (args : json) (f : string) : Prop :=
  (forall v, field args f = Some v -> In (paramName m f, v) (query m args))
  /\ (field args f = None -> ~ In (paramName m f) (map fst (query m args))).

(** [mentions needle text]: [needle] occurs in [text]. *)
Fixpoint mentions (needle text : string) : bool :=
  String.prefix needle text
  || match text with
     | EmptyString => false
     | String _ text' => mentions needle text'
     end.

(** A message identifies the missing configuration when it names the
    credential or speaks of the configuration. *)
Definition identifiesConfiguration (message : string) : bool :=
  mentions "NS_API_KEY" message || mentions "API key" message
  || mentions "configur" message.

(** Proof steps for membership in a list of parameters written out. *)
Ltac find_entry :=
  cbn [In]; first [ left; reflexivity | right; find_entry ].

Ltac no_entry Hnone :=
  let o := fresh "o" in
  let Ho := fresh "Ho" in
  intros o Ho; cbn [In] in Ho;
  repeat (destruct Ho as [ Ho | Ho ];
          [ first [ discriminate Ho | injection Ho as <-; exact Hnone ] | ]);
  destruct Ho.

End NSApiService.

(* ===================================================================== *)
(** * src/http-server.ts *)
(* ===================================================================== *)

Module NSHttpServer.
Import ResponseFormatter Types.
Import NSApiService.
Local Open Scope net_scope.

(** ** The call-tool handler *)

Record CallToolRequest : Type := {
  name : string;
  arguments : option json
}.

(** What the handler reads besides the request: the service object and
    the clock that [new Date()] samples. *)
Record Server : Type := {
  nsApiService : NSApiService.t;
  clock : Z
}.

(** [request.params.arguments || {}] *)
Definition rawArgsOf (request : CallToolRequest) : json :=
  match arguments request with
  | Some a => if truthy a then a else JObj []
  | None => JObj []
  end.

Definition currentTimePayload (now : Z) : json :=
  JObj [("datetime", JStr (Date.toISOString now));
        ("timezone", JStr "Europe/Amsterdam")].

(** One [case] of the switch that validates, calls the client and formats. *)
Definition validated (toolName : string) (isValid : json -> bool)
    (method : NSApiService.t -> json -> Net json)
    (srv : Server) (rawArgs : json) : Net Envelope :=
  if negb (isValid rawArgs) then
    throw (createMcpError InvalidParams ("Invalid arguments for " +:+ toolName))
  else
    data <- method (nsApiService srv) rawArgs ;;
    ret (formatSuccess data).

(** The body of the [try] block. *)
Definition switch (srv : Server) (toolName : string) (rawArgs : json) : Net Envelope :=
  if String.eqb toolName "get_disruptions" then
    validated "get_disruptions" isValidDisruptionsArgs getDisruptions srv rawArgs
  else if String.eqb toolName "get_travel_advice" then
    validated "get_travel_advice" isValidTravelAdviceArgs getTravelAdvice srv rawArgs
  else if String.eqb toolName "get_departures" then
    validated "get_departures" isValidDeparturesArgs getDepartures srv rawArgs
  else if String.eqb toolName "get_ovfiets" then
    validated "get_ovfiets" isValidOVFietsArgs getOVFiets srv rawArgs
  else if String.eqb toolName "get_station_info" then
    validated "get_station_info" isValidStationInfoArgs getStationInfo srv rawArgs
  else if String.eqb toolName "get_current_time_in_rfc3339" then
    let now := clock srv in
    ret (formatSuccess (currentTimePayload now))
  else if String.eqb toolName "get_arrivals" then
    validated "get_arrivals" isValidArrivalsArgs getArrivals srv rawArgs
  else if String.eqb toolName "get_prices" then
    validated "get_prices" isValidPricesArgs getPrices srv rawArgs
  else
    throw (createMcpError MethodNotFound ("Unknown tool: " +:+ toolName)).

(** The handler registered for [CallToolRequestSchema]. *)
Definition callTool (srv : Server) (request : CallToolRequest) : Net Envelope :=
  let rawArgs := rawArgsOf request in
  try_catch (switch srv (name request) rawArgs)
            (fun error => lift (formatError error)).

(** The requests the statements below are about. *)
Definition currentTime (arguments : option json) : CallToolRequest :=
  {| name := "get_current_time_in_rfc3339"; arguments := arguments |}.

Definition disruptionsRequest : CallToolRequest :=
  {| name := "get_disruptions";
     arguments := Some (JObj [("isActive", JBool true)]) |}.

(** "An internal error whose message identifies the missing
    configuration". *)
Definition reportsMissingConfiguration (outcome : Result Envelope) : Prop :=
  exists message,
    outcome = Ok (ErrorEnvelope InternalError message)
    /\ identifiesConfiguration message = true.

(** ** The /mcp routes *)

Inductive HttpMethod : Type := POST | GET | DELETE.

Record HttpRequest : Type := {
  method : HttpMethod;
  sessionHeader : option string;      (* req.headers['mcp-session-id'] *)
  body : json
}.

Inductive Body : Type :=
| JsonBody (v : json)
| TextBody (s : string).

Record HttpResponse : Type := {
  status : Z;
  content : Body
}.

(** A transport object: its identity and the session it serves, if any. *)
Record Transport : Type := {
  serial : nat;
  sessionId : option string
}.

(** The state of the listener: [this.transports] and the number of
    transport objects constructed so far. *)
Record State : Type := {
  transports : gmap string Transport;
  constructed : nat
}.

(** The handlers a transport is given when it is constructed. *)
Inductive Callback : Type :=
| OnSessionInitialized (sid : string)
| OnSessionClosed (sid : string)
| OnClose.

(** How [transport.handleRequest] ends. *)
Inductive Outcome : Type :=
| Responded (r : HttpResponse)
| ThrewAfterHeaders (r : HttpResponse)
| ThrewBeforeHeaders.

Definition nonEmpty (h : option string) : option string :=
  match h with
  | Some sid => if String.eqb sid EmptyString then None else Some sid
  | None => None
  end.

(** [sessionId && this.transports.has(sessionId)], with the transport. *)
Definition known (st : State) (h : option string) : option Transport :=
  match nonEmpty h with
  | Some sid => transports st !! sid
  | None => None
  end.

(** The bodies of [onsessioninitialized], [onsessionclosed] and [onclose];
    the SDK stores the generated identifier in the transport before it
    calls [onsessioninitialized]. *)
Definition runCallback (acc : Transport * gmap string Transport) (cb : Callback)
  : Transport * gmap string Transport :=
  let '(transport, ts) := acc in
  match cb with
  | OnSessionInitialized sid =>
      let transport' := {| serial := serial transport; sessionId := Some sid |} in
      (transport', <[sid := transport']> ts)
  | OnSessionClosed sid => (transport, delete sid ts)
  | OnClose =>
      match nonEmpty (sessionId transport) with
      | Some sid => (transport, delete sid ts)
      | None => (transport, ts)
      end
  end.

Definition invalidSession : string := "Invalid or missing session ID".

Section Routes.

(** The SDK, seen from the routes. *)
Variable isInitializeRequest : json -> bool.
Variable connect : Transport -> Result unit.
Variable handleRequest : Transport -> HttpRequest -> list Callback * Outcome.

(** [await transport.handleRequest(req, res)] inside its [try], with the
    [catch] that answers 500 unless the headers are out. *)
Definition delegate (st : State) (transport : Transport) (req : HttpRequest)
    (onError : Body) : State * HttpResponse :=
  let '(fired, outcome) := handleRequest transport req in
  let '(_, ts) := fold_left runCallback fired (transport, transports st) in
  let st' := {| transports := ts; constructed := constructed st |} in
  match outcome with
  | Responded r | ThrewAfterHeaders r => (st', r)
  | ThrewBeforeHeaders => (st', {| status := 500; content := onError |})
  end.

Definition internalError : Body :=
  JsonBody (JObj [("error", JStr "Internal server error")]).

(** The three ways a POST goes. *)
Inductive Route : Type :=
| Reuse (transport : Transport)
| Initialize
| Reject.

Definition routePost (st : State) (req : HttpRequest) : Route :=
  match known st (sessionHeader req) with
  | Some transport => Reuse transport
  | None =>
      match nonEmpty (sessionHeader req) with
      | None => if isInitializeRequest (body req) then Initialize else Reject
      | Some _ => Reject
      end
  end.

Definition postMcp (st : State) (req : HttpRequest) : State * HttpResponse :=
  match routePost st req with
  | Reuse transport => delegate st transport req internalError
  | Initialize =>
      let transport := {| serial := constructed st; sessionId := None |} in
      let st1 := {| transports := transports st; constructed := S (constructed st) |} in
      match connect transport with
      | Ok _ => delegate st1 transport req internalError
      | Throw _ => (st1, {| status := 500; content := internalError |})
      end
  | Reject =>
      (st, {| status := 400;
              content := JsonBody (JObj [("error", JStr invalidSession)]) |})
  end.

Definition getMcp (st : State) (req : HttpRequest) : State * HttpResponse :=
  match known st (sessionHeader req) with
  | None => (st, {| status := 400; content := TextBody invalidSession |})
  | Some transport =>
      delegate st transport req (TextBody "Error establishing SSE connection")
  end.

Definition deleteMcp (st : State) (req : HttpRequest) : State * HttpResponse :=
  match known st (sessionHeader req) with
  | None => (st, {| status := 400; content := TextBody invalidSession |})
  | Some transport =>
      delegate st transport req (TextBody "Error processing session termination")
  end.

Definition mcp (st : State) (req : HttpRequest) : State * HttpResponse :=
  match method req with
  | POST => postMcp st req
  | GET => getMcp st req
  | DELETE => deleteMcp st req
  end.

(** Whether handling [req] constructs a transport object. *)
Definition constructsTransport (st : State) (req : HttpRequest) : bool :=
  match method req with
  | POST => match routePost st req with Initialize => true | _ => false end
  | GET | DELETE => false
  end.

End Routes.

End NSHttpServer.

(* ===================================================================== *)
(** * src/http-server.ts: the tool catalog *)
(* ===================================================================== *)

Module ListTools.

(** The entries of the catalog, as the handler registered for
    [ListToolsRequestSchema] writes them. *)

Definition get_disruptions : json :=
  JObj [
    ("name", JStr "get_disruptions");
    ("description", JStr "Get comprehensive information about current and planned disruptions on the Dutch railway network. Returns details about maintenance work, unexpected disruptions, alternative transport options, impact on travel times, and relevant advice. Can filter for active disruptions and specific disruption types.");
    ("inputSchema", JObj [
      ("type", JStr "object");
      ("properties", JObj [
        ("isActive", JObj [
          ("type", JStr "boolean");
          ("description", JStr "Filter to only return active disruptions")]);
        ("type", JObj [
          ("type", JStr "string");
          ("description", JStr "Type of disruptions to return (e.g., MAINTENANCE, DISRUPTION)");
          ("enum", JArr [JStr "MAINTENANCE"; JStr "DISRUPTION"])])])])].

Definition get_travel_advice : json :=
  JObj [
    ("name", JStr "get_travel_advice");
    ("description", JStr "Get detailed travel routes between two train stations, including transfers, real-time updates, platform information, and journey duration. Can plan trips for immediate departure or for a specific future time, with options to optimize for arrival time. Returns multiple route options with status and crowding information.");
    ("inputSchema", JObj [
      ("type", JStr "object");
      ("properties", JObj [
        ("fromStation", JObj [
          ("type", JStr "string");
          ("description", JStr "Name or code of departure station")]);
        ("toStation", JObj [
          ("type", JStr "string");
          ("description", JStr "Name or code of destination station")]);
        ("dateTime", JObj [
          ("type", JStr "string");
          ("description", JStr "Format - date-time (as date-time in RFC3339). Datetime that the user want to depart from his origin or or arrive at his destination")]);
        ("searchForArrival", JObj [
          ("type", JStr "boolean");
          ("description", JStr "If true, dateTime is treated as desired arrival time")])]);
      ("required", JArr [JStr "fromStation"; JStr "toStation"])])].

Definition get_departures : json :=
  JObj [
    ("name", JStr "get_departures");
    ("description", JStr "Get real-time departure information for trains from a specific station, including platform numbers, delays, route details, and any relevant travel notes. Returns a list of upcoming departures with timing, destination, and status information.");
    ("inputSchema", JObj [
      ("type", JStr "object");
      ("properties", JObj [
        ("station", JObj [
          ("type", JStr "string");
          ("description", JStr "NS Station code for the station (e.g., ASD for Amsterdam Centraal). Required if uicCode is not provided")]);
        ("uicCode", JObj [
          ("type", JStr "string");
          ("description", JStr "UIC code for the station. Required if station code is not provided")]);
        ("dateTime", JObj [
          ("type", JStr "string");
          ("description", JStr "Format - date-time (as date-time in RFC3339). Only supported for departures at foreign stations. Defaults to server time (Europe/Amsterdam)")]);
        ("maxJourneys", JObj [
          ("type", JStr "number");
          ("description", JStr "Number of departures to return");
          ("minimum", JInt 1);
          ("maximum", JInt 100);
          ("default", JInt 40)]);
        ("lang", JObj [
          ("type", JStr "string");
          ("description", JStr "Language for localizing the departures list. Only a small subset of text is translated, mainly notes. Defaults to Dutch");
          ("enum", JArr [JStr "nl"; JStr "en"]);
          ("default", JStr "nl")])]);
      ("oneOf", JArr [
        JObj [("required", JArr [JStr "station"])];
        JObj [("required", JArr [JStr "uicCode"])]])])].

Definition get_ovfiets : json :=
  JObj [
    ("name", JStr "get_ovfiets");
    ("description", JStr "Get OV-fiets availability at a train station");
    ("inputSchema", JObj [
      ("type", JStr "object");
      ("properties", JObj [
        ("stationCode", JObj [
          ("type", JStr "string");
          ("description", JStr "Station code to check OV-fiets availability for (e.g., ASD for Amsterdam Centraal)")])]);
      ("required", JArr [JStr "stationCode"])])].

Definition get_station_info : json :=
  JObj [
    ("name", JStr "get_station_info");
    ("description", JStr "Get detailed information about a train station");
    ("inputSchema", JObj [
      ("type", JStr "object");
      ("properties", JObj [
        ("query", JObj [
          ("type", JStr "string");
          ("description", JStr "Station name or code to search for")]);
        ("includeNonPlannableStations", JObj [
          ("type", JStr "boolean");
          ("description", JStr "Include stations where trains do not stop regularly");
          ("default", JBool false)]);
        ("limit", JObj [
          ("type", JStr "number");
          ("description", JStr "Maximum number of results to return");
          ("minimum", JInt 1);
          ("maximum", JInt 50);
          ("default", JInt 10)])]);
      ("required", JArr [JStr "query"])])].

Definition get_current_time_in_rfc3339 : json :=
  JObj [
    ("name", JStr "get_current_time_in_rfc3339");
    ("description", JStr "Get the current server time (Europe/Amsterdam timezone) in RFC3339 format. This can be used as input for other tools that require date-time parameters.");
    ("inputSchema", JObj [("type", JStr "object"); ("properties", JObj [])])].

Definition get_arrivals : json :=
  JObj [
    ("name", JStr "get_arrivals");
    ("description", JStr "Get real-time arrival information for trains at a specific station, including platform numbers, delays, origin stations, and any relevant travel notes. Returns a list of upcoming arrivals with timing, origin, and status information.");
    ("inputSchema", JObj [
      ("type", JStr "object");
      ("properties", JObj [
        ("station", JObj [
          ("type", JStr "string");
          ("description", JStr "NS Station code for the station (e.g., ASD for Amsterdam Centraal). Required if uicCode is not provided")]);
        ("uicCode", JObj [
          ("type", JStr "string");
          ("description", JStr "UIC code for the station. Required if station code is not provided")]);
        ("dateTime", JObj [
          ("type", JStr "string");
          ("description", JStr "Format - date-time (as date-time in RFC3339). Only supported for arrivals at foreign stations. Defaults to server time (Europe/Amsterdam)")]);
        ("maxJourneys", JObj [
          ("type", JStr "number");
          ("description", JStr "Number of arrivals to return");
          ("minimum", JInt 1);
          ("maximum", JInt 100);
          ("default", JInt 40)]);
        ("lang", JObj [
          ("type", JStr "string");
          ("description", JStr "Language for localizing the arrivals list. Only a small subset of text is translated, mainly notes. Defaults to Dutch");
          ("enum", JArr [JStr "nl"; JStr "en"]);
          ("default", JStr "nl")])]);
      ("oneOf", JArr [
        JObj [("required", JArr [JStr "station"])];
        JObj [("required", JArr [JStr "uicCode"])]])])].

Definition get_prices : json :=
  JObj [
    ("name", JStr "get_prices");
    ("description", JStr "Get price information for domestic train journeys, including different travel classes, ticket types, and discounts. Returns detailed pricing information with conditions and validity.");
    ("inputSchema", JObj [
      ("type", JStr "object");
      ("properties", JObj [
        ("fromStation", JObj [
          ("type", JStr "string");
          ("description", JStr "UicCode or station code of the origin station")]);
        ("toStation", JObj [
          ("type", JStr "string");
          ("description", JStr "UicCode or station code of the destination station")]);
        ("travelClass", JObj [
          ("type", JStr "string");
          ("description", JStr "Travel class to return the price for");
          ("enum", JArr [JStr "FIRST_CLASS"; JStr "SECOND_CLASS"])]);
        ("travelType", JObj [
          ("type", JStr "string");
          ("description", JStr "Return the price for a single or return trip");
          ("enum", JArr [JStr "single"; JStr "return"]);
          ("default", JStr "single")]);
        ("isJointJourney", JObj [
          ("type", JStr "boolean");
          ("description", JStr "Set to true to return the price including joint journey discount");
          ("default", JBool false)]);
        ("adults", JObj [
          ("type", JStr "integer");
          ("description", JStr "Number of adults to return the price for");
          ("minimum", JInt 1);
          ("default", JInt 1)]);
        ("children", JObj [
          ("type", JStr "integer");
          ("description", JStr "Number of children to return the price for");
          ("minimum", JInt 0);
          ("default", JInt 0)]);
        ("routeId", JObj [
          ("type", JStr "string");
          ("description", JStr "Specific identifier for the route to take between the two stations. This routeId is returned in the /api/v3/trips call.")]);
        ("plannedDepartureTime", JObj [
          ("type", JStr "string");
          ("description", JStr "Format - date-time (as date-time in RFC3339). Used to find the correct route if multiple routes are possible.")]);
        ("plannedArrivalTime", JObj [
          ("type", JStr "string");
          ("description", JStr "Format - date-time (as date-time in RFC3339). Used to find the correct route if multiple routes are possible.")])]);
      ("required", JArr [JStr "fromStation"; JStr "toStation"])])].

(** The tools in the order the handler lists them. *)
Definition tools : list json :=
  [get_disruptions;
   get_travel_advice;
   get_departures;
   get_ovfiets;
   get_station_info;
   get_current_time_in_rfc3339;
   get_arrivals;
   get_prices].

(** The handler: [async () => ({ tools: [...] })]. *)
Definition listTools : json := JObj [("tools", JArr tools)].

(** ** Reading the catalog *)

Definition nameOf (tool : json) : option string :=
  match field tool "name" with
  | Some (JStr s) => Some s
  | _ => None
  end.

Definition toolNames : list string := omap nameOf tools.

Definition findTool (toolName : string) : option json :=
  List.find (fun tool => match nameOf tool with
                         | Some s => String.eqb s toolName
                         | None => false
                         end) tools.

(** The [properties] of the input schema of a tool. *)
Definition propertiesOf (toolName : string) : list (string * json) :=
  match findTool toolName with
  | Some tool =>
      match field tool "inputSchema" with
      | Some schema =>
          match field schema "properties" with
          | Some (JObj ps) => ps
          | _ => []
          end
      | None => []
      end
  | None => []
  end.

(** The [default] the schema of a tool gives for a property. *)
Definition advertisedDefault (toolName property : string) : option json :=
  match assoc property (propertiesOf toolName) with
  | Some p => field p "default"
  | None => None
  end.

End ListTools.

(* ===================================================================== *)
(** * src/http-server.ts: the cases of the switch, by method *)
(* ===================================================================== *)

Module Dispatch.
Import Types NSApiService.

(** The tool whose [case] calls a method of the client. *)
Definition toolOf (m : Method) : string :=
  match m with
  | GetDisruptions => "get_disruptions"
  | GetTravelAdvice => "get_travel_advice"
  | GetDepartures => "get_departures"
  | GetOVFiets => "get_ovfiets"
  | GetStationInfo => "get_station_info"
  | GetArrivals => "get_arrivals"
  | GetPrices => "get_prices"
  end.

(** The validator that [case] runs first. *)
Definition validatorOf (m : Method) : json -> bool :=
  match m with
  | GetDisruptions => isValidDisruptionsArgs
  | GetTravelAdvice => isValidTravelAdviceArgs
  | GetDepartures => isValidDeparturesArgs
  | GetOVFiets => isValidOVFietsArgs
  | GetStationInfo => isValidStationInfoArgs
  | GetArrivals => isValidArrivalsArgs
  | GetPrices => isValidPricesArgs
  end.

(** The request a method sends for [args]. *)
Definition requestOf (svc : t) (m : Method) (args : json) : HttpGet :=
  {| url := BASE_URL +:+ endpoint m;
     headers := [("Ocp-Apim-Subscription-Key", apiKey svc)];
     params := query m args |}.

(** A field as [??] and axios see it: [null] is as good as [undefined]. *)
Definition provided (o : option json) : option json :=
  match o with
  | Some JNull => None
  | _ => o
  end.

(** Proof steps: the parameter lists of the methods, written out. *)
Ltac unfold_params :=
  unfold disruptionsParams, travelAdviceParams, departuresParams, ovFietsParams,
    stationInfoParams, arrivalsParams, pricesParams.

Ltac unfold_params_in H :=
  unfold disruptionsParams, travelAdviceParams, departuresParams, ovFietsParams,
    stationInfoParams, arrivalsParams, pricesParams in H.

End Dispatch.

(* ===================================================================== *)
(** * src/http-server.ts: the transport a request reaches *)
(* ===================================================================== *)

Module Sessions.
Import NSHttpServer.

(** The transport object the next initialization constructs. *)
Definition fresh (st : State) : Transport :=
  {| serial := constructed st; sessionId := None |}.

(** The body of the 500 that the [catch] of each route sends. *)
Definition errorBody (m : HttpMethod) : Body :=
  match m with
  | POST => JsonBody (JObj [("error", JStr "Internal server error")])
  | GET => TextBody "Error establishing SSE connection"
  | DELETE => TextBody "Error processing session termination"
  end.

Section Serving.

Variable isInitializeRequest : json -> bool.
Variable connect : Transport -> Result unit.
Variable handleRequest : Transport -> HttpRequest -> list Callback * Outcome.

(** The transport whose [handleRequest] a request on /mcp reaches: the one
    stored for its session, or on the initialization path the new one,
    once [this.server.connect] has returned. *)
Definition serving (st : State) (req : HttpRequest) : option Transport :=
  match method req with
  | POST =>
      match routePost isInitializeRequest st req with
      | Reuse transport => Some transport
      | Initialize =>
          match connect (fresh st) with
          | Ok _ => Some (fresh st)
          | Throw _ => None
          end
      | Reject => None
      end
  | GET | DELETE => known st (sessionHeader req)
  end.

(** The callbacks that run while the request is handled. *)
Definition fired (st : State) (req : HttpRequest) : list Callback :=
  match serving st req with
  | Some transport => fst (handleRequest transport req)
  | None => []
  end.

(** The state when the server starts: [new Map()] and no transport yet. *)
Definition start : State := {| transports := ∅; constructed := 0 |}.

(** The state after a sequence of requests on /mcp, handled one after the
    other. *)
Fixpoint run (st : State) (reqs : list HttpRequest) : State :=
  match reqs with
  | [] => st
  | req :: rest =>
      run (fst (mcp isInitializeRequest connect handleRequest st req)) rest
  end.

(** [onsessioninitialized] runs for a session at some request of the
    sequence. *)
Fixpoint initialized (st : State) (reqs : list HttpRequest) (sid : string) : Prop :=
  match reqs with
  | [] => False
  | req :: rest =>
      In (OnSessionInitialized sid) (fired st req)
      \/ initialized (fst (mcp isInitializeRequest connect handleRequest st req)) rest sid
  end.

(** The number of requests of the sequence that construct a transport. *)
Fixpoint initializations (st : State) (reqs : list HttpRequest) : nat :=
  match reqs with
  | [] => 0
  | req :: rest =>
      (if constructsTransport isInitializeRequest st req then 1 else 0)
      + initializations (fst (mcp isInitializeRequest connect handleRequest st req)) rest
  end.

End Serving.

End Sessions.

(* ===================================================================== *)
(** * src/http-server.ts: the port, the middleware and the routes *)
(* ===================================================================== *)

Module Express.
Import NSHttpServer.

(** ** The port *)

(** [StrWhiteSpaceChar] among the code units below 256: TAB, LF, VT, FF,
    CR, SP and NBSP. *)
Definition is_white_space (c : ascii) : bool :=
  let n := N_of_ascii c in
  ((9 <=? n) && (n <=? 13) || (n =? 32) || (n =? 160))%N.

Fixpoint trim_start (s : string) : string :=
  match s with
  | String c r => if is_white_space c then trim_start r else s
  | EmptyString => s
  end.

Fixpoint all_white_space (s : string) : bool :=
  match s with
  | String c r => is_white_space c && all_white_space r
  | EmptyString => true
  end.

(** The sign a leading ["-"] gives, and the text after a leading sign. *)
Definition sign_of (s : string) : Z :=
  match s with
  | String c _ => if Ascii.eqb c "-" then (-1)%Z else 1%Z
  | EmptyString => 1%Z
  end.

Definition without_sign (s : string) : string :=
  match s with
  | String c r => if Ascii.eqb c "+" || Ascii.eqb c "-" then r else s
  | EmptyString => s
  end.

(** [parseInt(s, 10)]: white space, a sign, then the longest run of
    decimal digits; without a digit there the result is [NaN], here [None].
    The integer is the Number returned as long as it is at most 2^53;
    beyond, the Number is the nearest double. *)
Definition parseInt (s : string) : option Z :=
  let s1 := trim_start s in
  let sign := sign_of s1 in
  let s2 := without_sign s1 in
  let '(z, _) := JSON.read_digits s2 in
  if JSON.is_empty z then None else Some (sign * Z.of_N (N_of_digits z))%Z.

(** [process.env.PORT || '8081'] *)
Definition portText (PORT : option string) : string :=
  match PORT with
  | Some s => if String.eqb s EmptyString then "8081" else s
  | None => "8081"
  end.

(** [this.port = parseInt(process.env.PORT || '8081', 10)] *)
Definition port (PORT : option string) : option Z := parseInt (portText PORT).

(** ** The middleware *)

(** A request, once [express.json()] has parsed its body. *)
Record Incoming : Type := {
  verb : string;                      (* req.method *)
  path : string;                      (* req.path *)
  mcpSessionId : option string;       (* req.headers['mcp-session-id'] *)
  parsedBody : json                   (* req.body *)
}.

(** What [express.json()], the first middleware of the stack, makes of a
    request: the request with its body parsed, or an error (a body that
    is not JSON, of an unsupported encoding, or too large) that it hands
    to [next]; Express then passes over the middleware and the routes,
    and its error handler sends the answer, with the status of the
    error. *)
Inductive Arrival : Type :=
| Parsed (req : Incoming)
| Refused (answer : HttpResponse).

(** A response: the headers set with [res.header], and what is sent. *)
Record Outgoing : Type := {
  responseHeaders : list (string * string);
  sent : HttpResponse
}.

Definition corsHeaders : list (string * string) :=
  [("Access-Control-Allow-Origin", "*");
   ("Access-Control-Allow-Credentials", "true");
   ("Access-Control-Allow-Methods", "GET, POST, OPTIONS");
   ("Access-Control-Allow-Headers", "Content-Type, Authorization");
   ("Access-Control-Expose-Headers", "mcp-session-id, mcp-protocol-version")].

(** The CORS middleware, with the rest of the stack as [next];
    [res.sendStatus(200)] sends the status text as the body. *)
Definition cors (next : State -> Incoming -> State * HttpResponse)
    (st : State) (req : Incoming) : State * Outgoing :=
  if String.eqb (verb req) "OPTIONS" then
    (st, {| responseHeaders := corsHeaders;
            sent := {| status := 200; content := TextBody "OK" |} |})
  else
    let '(st', r) := next st req in
    (st', {| responseHeaders := corsHeaders; sent := r |}).

(** [res.json({ status: 'healthy', timestamp: new Date().toISOString() })] *)
Definition health (now : Z) : HttpResponse :=
  {| status := 200;
     content := JsonBody (JObj [("status", JStr "healthy");
                                ("timestamp", JStr (Date.toISOString now))]) |}.

(** ** The application *)

Section App.

Variable isInitializeRequest : json -> bool.
Variable connect : Transport -> Result unit.
Variable handleRequest : Transport -> HttpRequest -> list Callback * Outcome.

(** Express: whether the route registered by [app.METHOD(path, ...)] takes
    a request, and the answer when no route does. *)
Variable takes : HttpMethod -> string -> Incoming -> bool.
Variable notFound : Incoming -> HttpResponse.

Definition routed (m : HttpMethod) (req : Incoming) : HttpRequest :=
  {| method := m; sessionHeader := mcpSessionId req; body := parsedBody req |}.

(** The routes in the order [setupExpress] registers them; the first one
    that takes the request answers it. *)
Definition routes (now : Z) (st : State) (req : Incoming) : State * HttpResponse :=
  if takes GET "/health" req then (st, health now)
  else if takes POST "/mcp" req then
    postMcp isInitializeRequest connect handleRequest st (routed POST req)
  else if takes GET "/mcp" req then getMcp handleRequest st (routed GET req)
  else if takes DELETE "/mcp" req then deleteMcp handleRequest st (routed DELETE req)
  else (st, notFound req).

(** The stack in the order [setupExpress] builds it: [express.json()],
    the CORS middleware, the routes. *)
Definition app (now : Z) (st : State) (arrival : Arrival) : State * Outgoing :=
  match arrival with
  | Parsed req => cors (routes now) st req
  | Refused answer => (st, {| responseHeaders := []; sent := answer |})
  end.

End App.

End Express.

(* ===================================================================== *)
(** * Reading a date-time back *)
(* ===================================================================== *)

Module Rfc3339.
Local Open Scope Z_scope.

(** The day number, counted from 1970-01-01, of a date of the proleptic
    Gregorian calendar. *)
Definition days_from_civil (y m d : Z) : Z :=
  let y' := if m <=? 2 then y - 1 else y in
  let era := y' / 400 in
  let yoe := y' - era * 400 in
  let mp := if m <=? 2 then m + 9 else m - 3 in
  let doy := (153 * mp + 2) / 5 + d - 1 in
  let doe := yoe * 365 + yoe / 4 - yoe / 100 + doy in
  era * 146097 + doe - 719468.

Definition digit_value (c : ascii) : option Z :=
  if is_digit c then Some (Z.of_N (N_of_ascii c) - 48) else None.

(** The number that [width] digits at the head of [s] write after [acc],
    and the rest of [s]. *)
Fixpoint read_number (width : nat) (acc : Z) (s : string) : option (Z * string) :=
  match width with
  | O => Some (acc, s)
  | S w =>
      match s with
      | String c r => d ← digit_value c; read_number w (10 * acc + d) r
      | EmptyString => None
      end
  end.

(** The instant, in milliseconds from the epoch, that a date-time of the
    form [YYYY-MM-DDTHH:MM:SS.mmmZ] denotes. *)
Definition instant (s : string) : option Z :=
  '(y, s) ← read_number 4 0 s; s ← JSON.expect "-" s;
  '(m, s) ← read_number 2 0 s; s ← JSON.expect "-" s;
  '(d, s) ← read_number 2 0 s; s ← JSON.expect "T" s;
  '(h, s) ← read_number 2 0 s; s ← JSON.expect ":" s;
  '(mi, s) ← read_number 2 0 s; s ← JSON.expect ":" s;
  '(sec, s) ← read_number 2 0 s; s ← JSON.expect "." s;
  '(ms, s) ← read_number 3 0 s; s ← JSON.expect "Z" s;
  if JSON.is_empty s
  then Some (days_from_civil y m d * Date.msPerDay
             + h * 3600000 + mi * 60000 + sec * 1000 + ms)
  else None.

End Rfc3339.

(* ===================================================================== *)
(** * Facts about the runtime model *)
(* ===================================================================== *)

Module JsonFacts.
Import JSON.
Local Arguments String.append !s1 s2 : simpl nomatch.

(** Induction on a JSON value with the hypothesis for every item of an
    array and every member of an object. *)
Lemma json_induction (P : json -> Prop) :
  P JNull ->
  (forall b, P (JBool b)) ->
  (forall x, P (JNum x)) ->
  (forall s, P (JStr s)) ->
  (forall items, Forall P items -> P (JArr items)) ->
  (forall ms, Forall (fun kv => P (snd kv)) ms -> P (JObj ms)) ->
  forall v, P v.
Proof.
  intros Hnull Hbool Hnum Hstr Harr Hobj.
  fix IH 1. intros [ | b | n | s | items | ms ].
  - exact Hnull.
  - apply Hbool.
  - apply Hnum.
  - apply Hstr.
  - apply Harr. induction items as [ | x xs IHxs ]; constructor; [ apply IH | exact IHxs ].
  - apply Hobj. induction ms as [ | [k x] ms IHms ]; constructor; [ apply IH | exact IHms ].
Qed.

Lemma append_assoc (a b c : string) : (a +:+ b) +:+ c = a +:+ (b +:+ c).
Proof. induction a as [ | x a IH ]; simpl; [ reflexivity | f_equal; exact IH ]. Qed.

Lemma length_append (a b : string) :
  String.length (a +:+ b) = String.length a + String.length b.
Proof. induction a as [ | x a IH ]; simpl; [ reflexivity | f_equal; exact IH ]. Qed.

Lemma expect_append (p r : string) : expect p (p +:+ r) = Some r.
Proof.
  induction p as [ | a p IH ]; simpl; [ reflexivity | ].
  now rewrite Ascii.eqb_refl.
Qed.

Lemma skip_ws_spaces (n : nat) (s : string) : skip_ws (spaces n +:+ s) = skip_ws s.
Proof. induction n as [ | n IH ]; simpl; [ reflexivity | exact IH ]. Qed.

Lemma skip_ws_idempotent (s : string) : skip_ws (skip_ws s) = skip_ws s.
Proof.
  induction s as [ | c s IH ]; simpl; [ reflexivity | ].
  destruct (is_ws c) eqn:E; [ exact IH | simpl; now rewrite E ].
Qed.

(** ** Numbers *)

Lemma append_empty_r (a : string) : a +:+ EmptyString = a.
Proof. induction a as [ | x a IH ]; simpl; [ reflexivity | f_equal; exact IH ]. Qed.

Lemma digit_cases (c : ascii) :
  is_digit c = true ->
  In c ["0"; "1"; "2"; "3"; "4"; "5"; "6"; "7"; "8"; "9"]%char.
Proof.
  destruct c as [[] [] [] [] [] [] [] []]; intros H;
    try discriminate H; simpl; tauto.
Qed.

Lemma ends_number_digits (rest : string) : ends_number rest -> ends_digits rest.
Proof. destruct rest; simpl; tauto. Qed.

Lemma read_digits_append (d rest : string) :
  all_digits d = true -> ends_digits rest -> read_digits (d +:+ rest) = (d, rest).
Proof.
  intros Hd Hrest. induction d as [ | c d IH ]; simpl.
  - destruct rest as [ | c r ]; [ reflexivity | ]. simpl in *. now rewrite Hrest.
  - simpl in Hd. apply andb_true_iff in Hd as [Hc Hd].
    now rewrite Hc, IH.
Qed.

Lemma all_digits_append (a b : string) :
  all_digits (a +:+ b) = all_digits a && all_digits b.
Proof.
  induction a as [ | c a IH ]; simpl; [ reflexivity | ].
  now rewrite IH, andb_assoc.
Qed.

Lemma all_digits_zeros (n : nat) : all_digits (zeros n) = true.
Proof. induction n as [ | n IH ]; [ reflexivity | exact IH ]. Qed.

Lemma length_zeros (n : nat) : String.length (zeros n) = n.
Proof. induction n as [ | n IH ]; simpl; [ reflexivity | now rewrite IH ]. Qed.

Lemma take_drop (n : nat) (s : string) : take n s +:+ drop n s = s.
Proof.
  revert s. induction n as [ | n IH ]; intros [ | c r ]; simpl; try reflexivity.
  now rewrite IH.
Qed.

Lemma length_take (n : nat) (s : string) :
  n <= String.length s -> String.length (take n s) = n.
Proof.
  revert s. induction n as [ | n IH ]; intros [ | c r ]; simpl; intros H;
    try reflexivity; try lia.
  rewrite IH; [ reflexivity | lia ].
Qed.

Lemma length_drop (n : nat) (s : string) :
  String.length (drop n s) = String.length s - n.
Proof.
  revert s. induction n as [ | n IH ]; intros [ | c r ]; simpl; try reflexivity.
  apply IH.
Qed.

Lemma all_digits_take_drop (n : nat) (s : string) :
  all_digits s = true -> all_digits (take n s) = true /\ all_digits (drop n s) = true.
Proof.
  intros H. rewrite <- (take_drop n s), all_digits_append in H.
  now apply andb_true_iff in H.
Qed.

Lemma all_digits_string_of_uint (d : uint) : all_digits (NilEmpty.string_of_uint d) = true.
Proof. induction d; simpl; auto. Qed.

Lemma N_of_digits_of_N (n : N) : N_of_digits (digits_of_N n) = n.
Proof.
  unfold N_of_digits, digits_of_N. rewrite NilEmpty.usu.
  apply DecimalN.Unsigned.of_to.
Qed.

Lemma digits_of_N_not_empty (n : N) : is_empty (digits_of_N n) = false.
Proof.
  unfold digits_of_N. destruct n as [ | p ]; [ reflexivity | ].
  pose proof (DecimalPos.Unsigned.to_uint_nonnil p) as H. simpl.
  destruct (Pos.to_uint p); [ congruence | reflexivity .. ].
Qed.

(** ** Stripping zeros *)

Lemma strip_leading_zeros_zeros (n : nat) (s : string) :
  strip_leading_zeros (zeros n +:+ s) = strip_leading_zeros s.
Proof. induction n as [ | n IH ]; [ reflexivity | exact IH ]. Qed.

Lemma length_strip_leading_zeros (s : string) :
  String.length (strip_leading_zeros s) <= String.length s.
Proof.
  induction s as [ | c r IH ]; simpl; [ lia | ].
  destruct (Ascii.eqb c "0"); simpl; lia.
Qed.

(** Digits that keep their first digit when stripped do not begin with a
    zero. *)
Lemma first_digit_not_zero (c : ascii) (r : string) :
  strip_leading_zeros (String c r) = String c r -> Ascii.eqb c "0" = false.
Proof.
  simpl. destruct (Ascii.eqb c "0"); [ | reflexivity ].
  intros H. pose proof (length_strip_leading_zeros r) as Hlen.
  rewrite H in Hlen. simpl in Hlen. lia.
Qed.

Lemma strip_leading_zeros_fixed (s t : string) :
  strip_leading_zeros s = s -> is_empty s = false ->
  strip_leading_zeros (s +:+ t) = s +:+ t.
Proof.
  destruct s as [ | c r ]; [ discriminate | ]. intros H _.
  simpl. now rewrite (first_digit_not_zero c r H).
Qed.

Lemma strip_trailing_zeros_zeros (n : nat) : strip_trailing_zeros (zeros n) = EmptyString.
Proof. induction n as [ | n IH ]; simpl; [ reflexivity | now rewrite IH ]. Qed.

Lemma strip_trailing_zeros_append (s : string) (n : nat) :
  strip_trailing_zeros (s +:+ zeros n) = strip_trailing_zeros s.
Proof.
  induction s as [ | c r IH ]; simpl.
  - apply strip_trailing_zeros_zeros.
  - now rewrite IH.
Qed.

Lemma is_empty_append (a b : string) : is_empty a = false -> is_empty (a +:+ b) = false.
Proof. destruct a; [ discriminate | reflexivity ]. Qed.

(** ** Pieces of the literal *)

Lemma parse_fraction_absent (rest : string) :
  ends_number rest -> parse_fraction rest = Some (EmptyString, rest).
Proof.
  destruct rest as [ | c r ]; [ reflexivity | ].
  simpl. intros (_ & -> & _). reflexivity.
Qed.

Lemma parse_fraction_present (f rest : string) :
  all_digits f = true -> is_empty f = false -> ends_digits rest ->
  parse_fraction (String "." (f +:+ rest)) = Some (f, rest).
Proof.
  intros Hf Hne Hrest. unfold parse_fraction.
  change (Ascii.eqb "." ".") with true. cbv iota.
  now rewrite read_digits_append, Hne.
Qed.

Lemma parse_exponent_absent (rest : string) :
  ends_number rest -> parse_exponent rest = Some (0%Z, rest).
Proof.
  destruct rest as [ | c r ]; [ reflexivity | ].
  simpl. intros (_ & _ & -> & ->). reflexivity.
Qed.

Lemma parse_exponent_present (e : Z) (rest : string) :
  e <> 0%Z -> ends_digits rest ->
  parse_exponent
    ("e" +:+ (if (e <? 0)%Z then "-" else "+") +:+ digits_of_N (Z.to_N (Z.abs e)) +:+ rest)
  = Some (e, rest).
Proof.
  intros He Hrest.
  assert (Hdigits : forall neg,
    parse_exponent_digits neg (digits_of_N (Z.to_N (Z.abs e)) +:+ rest)
    = Some (if neg then (- Z.abs e)%Z else Z.abs e, rest)).
  { intros neg. unfold parse_exponent_digits.
    rewrite read_digits_append;
      [ | apply all_digits_string_of_uint | exact Hrest ].
    rewrite digits_of_N_not_empty, N_of_digits_of_N, Z2N.id by lia. reflexivity. }
  destruct (e <? 0)%Z eqn:E; simpl; rewrite Hdigits; f_equal; f_equal.
  - apply Z.ltb_lt in E. lia.
  - apply Z.ltb_ge in E. lia.
Qed.

Lemma canonical_cases (x : number) :
  canonical x = true ->
  x = zero
  \/ (all_digits (digits x) = true /\ is_empty (digits x) = false
      /\ strip_leading_zeros (digits x) = digits x
      /\ strip_trailing_zeros (digits x) = digits x).
Proof.
  unfold canonical. destruct x as [neg s p]. cbn [digits point negative].
  destruct (String.eqb_spec s "0") as [ -> | Hs ].
  - intros H. apply andb_true_iff in H as [Hp Hneg]. left.
    apply Z.eqb_eq in Hp. subst p. destruct neg; [ discriminate | reflexivity ].
  - intros H. right.
    repeat (apply andb_true_iff in H as [H ?]).
    repeat match goal with
           | H : String.eqb _ _ = true |- _ => apply String.eqb_eq in H
           end.
    repeat split; try assumption.
    destruct s; [ discriminate | reflexivity ].
Qed.

Lemma normalize_canonical (neg : bool) (s : string) (p : Z) :
  is_empty s = false ->
  strip_leading_zeros s = s -> strip_trailing_zeros s = s ->
  normalize neg s p = {| negative := neg; digits := s; point := p |}.
Proof.
  intros Hne Hl Ht. unfold normalize. rewrite Hl, Ht, Hne. f_equal. lia.
Qed.

Lemma leading_check (i : string) :
  strip_leading_zeros i = i ->
  negb (String.eqb i "0") && negb (String.eqb (strip_leading_zeros i) i) = false.
Proof. intros ->. rewrite String.eqb_refl. apply andb_false_r. Qed.

Lemma parse_number_round_trip (x : number) (rest : string) :
  canonical x = true -> ends_number rest ->
  parse_number (negative x) (unsigned_to_string x +:+ rest) = Some (x, rest).
Proof.
  intros Hx Hrest. pose proof (ends_number_digits rest Hrest) as Hrest'.
  destruct (canonical_cases x Hx) as [ -> | (Hd & Hne & Hl & Ht) ].
  { unfold parse_number. cbn [unsigned_to_string zero digits point negative].
    change (read_digits _) with (read_digits ("0" +:+ rest)).
    rewrite read_digits_append by (reflexivity || assumption).
    cbn [is_empty]. change (negb (String.eqb "0" "0") && _) with false. cbv iota.
    rewrite parse_fraction_absent by assumption. cbn [mbind option_bind].
    now rewrite (parse_exponent_absent rest Hrest). }
  destruct x as [neg s p]. cbn [digits point negative] in *.
  unfold unsigned_to_string. cbn [digits point].
  set (k := Z.of_nat (String.length s)).
  destruct ((k <=? p) && (p <=? 21))%Z eqn:EA.
  { (* digits, then zeros *)
    apply andb_true_iff in EA as [Hkp _]. apply Z.leb_le in Hkp.
    unfold parse_number. rewrite append_assoc.
    rewrite <- (append_assoc s). rewrite read_digits_append;
      [ | rewrite all_digits_append, Hd; apply all_digits_zeros | exact Hrest' ].
    rewrite (is_empty_append _ _ Hne).
    rewrite (leading_check _ (strip_leading_zeros_fixed _ _ Hl Hne)).
    rewrite parse_fraction_absent by assumption. cbn [mbind option_bind].
    rewrite (parse_exponent_absent rest Hrest). cbn [mbind option_bind].
    rewrite append_empty_r. unfold normalize.
    rewrite (strip_leading_zeros_fixed _ _ Hl Hne), strip_trailing_zeros_append, Ht, Hne.
    rewrite length_append, length_zeros. do 2 f_equal. f_equal. subst k. lia. }
  destruct ((0 <? p) && (p <=? 21))%Z eqn:EB.
  { (* digits, point, digits *)
    apply andb_true_iff in EB as [Hp0 Hp21].
    apply Z.ltb_lt in Hp0. apply Z.leb_le in Hp21.
    apply andb_false_iff in EA as [EA | EA];
      [ apply Z.leb_gt in EA | apply Z.leb_gt in EA; lia ].
    destruct (all_digits_take_drop (Z.to_nat p) s Hd) as [Htake Hdrop].
    assert (Hlen : String.length (take (Z.to_nat p) s) = Z.to_nat p)
      by (apply length_take; subst k; lia).
    assert (Htake_ne : is_empty (take (Z.to_nat p) s) = false).
    { destruct (take (Z.to_nat p) s); [ simpl in Hlen; lia | reflexivity ]. }
    assert (Hdrop_ne : is_empty (drop (Z.to_nat p) s) = false).
    { pose proof (length_drop (Z.to_nat p) s) as Hl'.
      destruct (drop (Z.to_nat p) s); [ simpl in Hl'; subst k; lia | reflexivity ]. }
    assert (Htake_l : strip_leading_zeros (take (Z.to_nat p) s) = take (Z.to_nat p) s).
    { destruct s as [ | c r ]; [ discriminate | ].
      destruct (Z.to_nat p) as [ | n ] eqn:En; [ lia | ].
      simpl. now rewrite (first_digit_not_zero c r Hl). }
    unfold parse_number. rewrite !append_assoc.
    rewrite read_digits_append; [ | exact Htake | reflexivity ].
    rewrite Htake_ne, (leading_check _ Htake_l).
    change ("." +:+ ?t) with (String "." t).
    rewrite parse_fraction_present by assumption. cbn [mbind option_bind].
    rewrite (parse_exponent_absent rest Hrest). cbn [mbind option_bind].
    rewrite take_drop, Hlen, normalize_canonical by assumption.
    do 3 f_equal. lia. }
  destruct ((-6 <? p) && (p <=? 0))%Z eqn:EC.
  { (* zero, point, zeros, digits *)
    apply andb_true_iff in EC as [_ Hp0]. apply Z.leb_le in Hp0.
    unfold parse_number. rewrite !append_assoc.
    change ("0." +:+ ?t) with ("0" +:+ String "." t).
    rewrite read_digits_append; [ | reflexivity | reflexivity ].
    cbn [is_empty]. change (negb (String.eqb "0" "0") && _) with false. cbv iota.
    rewrite <- (append_assoc (zeros _) s).
    rewrite parse_fraction_present;
      [ | rewrite all_digits_append, all_digits_zeros; exact Hd
        | destruct (zeros (Z.to_nat (- p))); [ exact Hne | reflexivity ]
        | exact Hrest' ].
    cbn [mbind option_bind].
    rewrite (parse_exponent_absent rest Hrest). cbn [mbind option_bind].
    unfold normalize.
    change ("0" +:+ zeros ?n +:+ ?t) with (zeros (S n) +:+ t).
    rewrite strip_leading_zeros_zeros, Hl, Ht, Hne.
    rewrite length_append, length_zeros. do 3 f_equal.
    change (String.length "0") with 1. lia. }
  (* exponent form *)
  assert (Hp : (p - 1 <> 0)%Z).
  { intros Heq. assert (p = 1)%Z by lia. subst p.
    apply andb_false_iff in EB as [EB | EB]; discriminate. }
  destruct s as [ | d rest_s ]; [ discriminate | ].
  simpl in Hd. apply andb_true_iff in Hd as [Hdigit Hrest_s].
  assert (Hexp := parse_exponent_present (p - 1) rest Hp Hrest').
  assert (Hread : forall t, ends_digits t ->
            read_digits (String d t) = (String d EmptyString, t)).
  { intros t Ht'. apply (read_digits_append (String d EmptyString) t); [ | exact Ht' ].
    simpl. now rewrite Hdigit. }
  assert (Hd1 : strip_leading_zeros (String d EmptyString) = String d EmptyString).
  { simpl. now rewrite (first_digit_not_zero d rest_s Hl). }
  unfold parse_number. destruct rest_s as [ | d2 rest_s ].
  - cbn [is_empty String.append]. rewrite !append_assoc. rewrite Hread by reflexivity.
    cbn [is_empty]. rewrite (leading_check _ Hd1).
    change (parse_fraction (String "e" ?t)) with (Some (EmptyString, String "e" t)).
    cbn [mbind option_bind].
    change (String "e" ?t) with ("e" +:+ t). rewrite Hexp.
    cbn [mbind option_bind String.append].
    rewrite normalize_canonical by assumption. do 3 f_equal.
    change (String.length (String d EmptyString)) with 1. lia.
  - cbn [is_empty String.append]. rewrite !append_assoc. rewrite Hread by reflexivity.
    cbn [is_empty]. rewrite (leading_check _ Hd1).
    rewrite ?append_assoc. cbn [String.append]. rewrite ?append_assoc.
    change (String d2 (rest_s +:+ ?t)) with (String d2 rest_s +:+ t).
    rewrite parse_fraction_present; [ | exact Hrest_s | reflexivity | reflexivity ].
    cbn [mbind option_bind].
    change (String "e" ?t) with ("e" +:+ t). rewrite Hexp.
    cbn [mbind option_bind String.append].
    rewrite normalize_canonical by assumption. do 3 f_equal.
    change (String.length (String d EmptyString)) with 1. lia.
Qed.

(** ** Strings *)

Lemma parse_string_body_escape (c : ascii) (s rest : string) :
  parse_string_body (quote_body s +:+ rest) = Some (s, rest) ->
  parse_string_body (escape c +:+ (quote_body s +:+ rest)) = Some (String c s, rest).
Proof.
  intros IH.
  destruct c as [[] [] [] [] [] [] [] []];
    match goal with
    | |- context [escape ?c] =>
        let e := eval vm_compute in (escape c) in change (escape c) with e
    end;
    cbn [String.append parse_string_body]; rewrite IH; reflexivity.
Qed.

Lemma parse_string_body_quote (s rest : string) :
  parse_string_body (quote_body s +:+ rest) = Some (s, rest).
Proof.
  induction s as [ | c s IH ].
  - reflexivity.
  - change (quote_body (String c s)) with (escape c +:+ quote_body s).
    rewrite append_assoc. now apply parse_string_body_escape.
Qed.

(** ** Values *)

Lemma length_spaces (n : nat) : String.length (spaces n) = n.
Proof. induction n as [ | n IH ]; simpl; [ reflexivity | now rewrite IH ]. Qed.

Lemma representable_items (items : list json) :
  representable (JArr items) <-> Forall representable items.
Proof.
  induction items as [ | x xs IH ]; simpl.
  - split; [ constructor | trivial ].
  - split.
    + intros [Hx Hxs]. constructor; [ exact Hx | now apply IH ].
    + intros H. inversion H; subst. split; [ assumption | now apply IH ].
Qed.

Lemma representable_members (ms : list (string * json)) :
  representable (JObj ms) <->
  NoDup (keys ms) /\ Forall (fun kv => representable (snd kv)) ms.
Proof.
  simpl. apply and_iff_compat_l.
  induction ms as [ | [k x] ms IH ]; simpl.
  - split; [ constructor | trivial ].
  - split.
    + intros [Hx Hms]. constructor; [ exact Hx | now apply IH ].
    + intros H. inversion H; subst. split; [ assumption | now apply IH ].
Qed.

Lemma parse_value_skip_ws (fuel : nat) (s : string) :
  parse_value fuel (skip_ws s) = parse_value fuel s.
Proof. destruct fuel; simpl; [ reflexivity | now rewrite skip_ws_idempotent ]. Qed.

Lemma parse_value_indented (fuel n : nat) (s : string) :
  parse_value fuel (String LF (spaces n +:+ s)) = parse_value fuel s.
Proof.
  rewrite <- (parse_value_skip_ws fuel (String LF _)).
  change (skip_ws (String LF (spaces n +:+ s))) with (skip_ws (spaces n +:+ s)).
  now rewrite skip_ws_spaces, parse_value_skip_ws.
Qed.

Lemma digit_starts_value (c : ascii) : is_digit c = true -> starts_value c.
Proof.
  intros H. apply digit_cases in H. simpl in H.
  repeat (destruct H as [ <- | H ]; [ now compute | ]). destruct H.
Qed.

(** A canonical number is written with a digit first. *)
Lemma unsigned_to_string_head (x : number) :
  canonical x = true ->
  exists c r, unsigned_to_string x = String c r /\ is_digit c = true.
Proof.
  intros Hx. destruct (canonical_cases x Hx) as [ -> | (Hd & Hne & Hl & _) ].
  { exists "0"%char, EmptyString. split; reflexivity. }
  destruct x as [neg s p]. cbn [digits] in *. unfold unsigned_to_string. cbn [digits point].
  destruct s as [ | d rest ]; [ discriminate | ].
  simpl in Hd. apply andb_true_iff in Hd as [Hdigit _].
  destruct ((Z.of_nat (String.length (String d rest)) <=? p) && (p <=? 21))%Z.
  { eexists _, _. split; [ reflexivity | exact Hdigit ]. }
  destruct ((0 <? p) && (p <=? 21))%Z eqn:EB.
  { apply andb_true_iff in EB as [Hp _]. apply Z.ltb_lt in Hp.
    destruct (Z.to_nat p) as [ | n ] eqn:En; [ lia | ].
    eexists _, _. split; [ reflexivity | exact Hdigit ]. }
  destruct ((-6 <? p) && (p <=? 0))%Z.
  { eexists _, _. split; reflexivity. }
  eexists _, _. split; [ reflexivity | exact Hdigit ].
Qed.

Lemma stringify_head (indent : nat) (v : json) :
  representable v ->
  exists c r, stringify_at indent v = String c r /\ starts_value c.
Proof.
  intros Hrep.
  destruct v as [ | [] | x | s | [ | y ys ] | [ | [k y] ms ] ];
    try (eexists _, _; split; [ reflexivity | now compute ]).
  cbn [stringify_at]. unfold number_to_string. destruct (negative x).
  - eexists _, _. split; [ reflexivity | now compute ].
  - destruct (unsigned_to_string_head x Hrep) as (c & r & Heq & Hd).
    exists c, r. split; [ exact Heq | now apply digit_starts_value ].
Qed.

Lemma skip_ws_value (indent : nat) (v : json) (rest : string) :
  representable v ->
  exists c r, stringify_at indent v = String c r /\ starts_value c /\
              skip_ws (stringify_at indent v +:+ rest) = String c (r +:+ rest).
Proof.
  intros Hrep. destruct (stringify_head indent v Hrep) as (c & r & Heq & Hc).
  exists c, r. split; [ exact Heq | split; [ exact Hc | ] ].
  rewrite Heq. simpl. destruct Hc as [-> _]. reflexivity.
Qed.

Lemma items_tail_ends_number (indent : nat) (xs : list json) (rest : string) :
  ends_number (items_tail indent xs +:+ rest).
Proof. destruct xs; simpl; repeat split. Qed.

Lemma members_tail_ends_number (indent : nat) (ms : list (string * json)) (rest : string) :
  ends_number (members_tail indent ms +:+ rest).
Proof. destruct ms as [ | [k x] ms ]; simpl; repeat split. Qed.

Lemma items_tail_nil (indent : nat) (rest : string) :
  items_tail indent [] +:+ rest = String LF (spaces indent +:+ String "]" rest).
Proof. simpl. now rewrite append_assoc. Qed.

Lemma items_tail_cons (indent : nat) (y : json) (ys : list json) (rest : string) :
  items_tail indent (y :: ys) +:+ rest
  = String "," (String LF (spaces (2 + indent) +:+ stringify_at (2 + indent) y
                           +:+ items_tail indent ys +:+ rest)).
Proof. cbn [items_tail String.append]. now rewrite !append_assoc. Qed.

Lemma skip_ws_indented (n : nat) (s : string) :
  skip_ws (String LF (spaces n +:+ s)) = skip_ws s.
Proof. apply skip_ws_spaces. Qed.

Lemma parse_elements_items (indent : nat) (xs : list json) :
  Forall round_trips xs ->
  forall x fuel rest,
    round_trips x ->
    items_size (x :: xs) <= fuel ->
    ends_number rest ->
    parse_elements fuel
      (String LF (spaces (2 + indent) +:+ stringify_at (2 + indent) x
                  +:+ items_tail indent xs +:+ rest))
    = Some (x :: xs, rest).
Proof.
  induction 1 as [ | y ys Hy Hys IH ]; intros x fuel rest Hx Hfuel Hrest.
  - enough_fuel fuel Hfuel.
    cbn [parse_elements]. rewrite parse_value_indented, Hx.
    + cbn [mbind option_bind]. rewrite items_tail_nil, skip_ws_indented.
      reflexivity.
    + simpl in Hfuel. lia.
    + apply items_tail_ends_number.
  - enough_fuel fuel Hfuel.
    change (items_size (x :: y :: ys)) with (S (size x + items_size (y :: ys))) in Hfuel.
    cbn [parse_elements]. rewrite parse_value_indented, Hx.
    + cbn [mbind option_bind]. rewrite items_tail_cons.
      cbn [skip_ws is_ws]. cbn -[parse_elements stringify_at spaces items_tail String.append].
      rewrite IH; [ reflexivity | exact Hy | lia | exact Hrest ].
    + lia.
    + apply items_tail_ends_number.
Qed.

Lemma members_tail_nil (indent : nat) (rest : string) :
  members_tail indent [] +:+ rest = String LF (spaces indent +:+ String "}" rest).
Proof. simpl. now rewrite append_assoc. Qed.

Lemma members_tail_cons (indent : nat) (k : string) (y : json)
    (ms : list (string * json)) (rest : string) :
  members_tail indent ((k, y) :: ms) +:+ rest
  = String "," (String LF (spaces (2 + indent) +:+ quote k +:+ ": "
                           +:+ stringify_at (2 + indent) y
                           +:+ members_tail indent ms +:+ rest)).
Proof.
  cbn [members_tail String.append]. rewrite !append_assoc.
  cbn [String.append]. now rewrite !append_assoc.
Qed.

Lemma parse_members_members (indent : nat) (ms : list (string * json)) :
  Forall (fun kv => round_trips (snd kv)) ms ->
  forall k x fuel rest,
    round_trips x ->
    members_size ((k, x) :: ms) <= fuel ->
    ends_number rest ->
    parse_members fuel
      (String LF (spaces (2 + indent) +:+ quote k +:+ ": "
                  +:+ stringify_at (2 + indent) x
                  +:+ members_tail indent ms +:+ rest))
    = Some ((k, x) :: ms, rest).
Proof.
  induction 1 as [ | [k' y] ms Hy Hms IH ]; intros k x fuel rest Hx Hfuel Hrest.
  - enough_fuel fuel Hfuel.
    cbn [parse_members]. rewrite skip_ws_indented.
    unfold quote at 1. cbn [String.append skip_ws].
    change (is_ws dquote) with false. cbv iota.
    rewrite Ascii.eqb_refl, parse_string_body_quote.
    cbn [mbind option_bind String.append skip_ws].
    change (is_ws ":") with false. cbv iota.
    rewrite Ascii.eqb_refl.
    change (String " " ?s) with (spaces 1 +:+ s).
    rewrite <- (parse_value_skip_ws fuel), skip_ws_spaces, parse_value_skip_ws, Hx.
    + cbn [mbind option_bind]. rewrite members_tail_nil, skip_ws_indented.
      reflexivity.
    + simpl in Hfuel. lia.
    + apply members_tail_ends_number.
  - enough_fuel fuel Hfuel.
    change (members_size ((k, x) :: (k', y) :: ms))
      with (S (size x + members_size ((k', y) :: ms))) in Hfuel.
    cbn [parse_members]. rewrite skip_ws_indented.
    unfold quote at 1. cbn [String.append skip_ws].
    change (is_ws dquote) with false. cbv iota.
    rewrite Ascii.eqb_refl, parse_string_body_quote.
    cbn [mbind option_bind String.append skip_ws].
    change (is_ws ":") with false. cbv iota.
    rewrite Ascii.eqb_refl.
    change (String " " ?s) with (spaces 1 +:+ s).
    rewrite <- (parse_value_skip_ws fuel), skip_ws_spaces, parse_value_skip_ws, Hx.
    + cbn [mbind option_bind]. rewrite members_tail_cons.
      cbn [skip_ws is_ws].
      cbn -[parse_members stringify_at spaces members_tail String.append quote].
      rewrite (IH k' y); [ reflexivity | exact Hy | lia | exact Hrest ].
    + lia.
    + apply members_tail_ends_number.
Qed.

(** ** Objects read back without repeated keys *)

Lemma set_member_fresh (k : string) (v : json) (acc : list (string * json)) :
  k ∉ keys acc -> set_member k v acc = (acc ++ [(k, v)])%list.
Proof.
  induction acc as [ | [k' v'] acc IH ]; simpl; intros Hk; [ reflexivity | ].
  apply not_elem_of_cons in Hk as [Hne Hk].
  destruct (String.eqb_spec k k') as [ -> | _ ]; [ congruence | ].
  now rewrite IH.
Qed.

Lemma fold_set_member (ms acc : list (string * json)) :
  NoDup (keys acc ++ keys ms) ->
  fold_left (fun a kv => set_member (fst kv) (snd kv) a) ms acc = (acc ++ ms)%list.
Proof.
  revert acc. induction ms as [ | [k v] ms IH ]; intros acc Hnd; simpl.
  - now rewrite List.app_nil_r.
  - apply NoDup_app in Hnd as Hparts. destruct Hparts as (_ & Hfresh & _).
    rewrite set_member_fresh.
    + rewrite IH.
      * now rewrite <- List.app_assoc.
      * unfold keys in *. rewrite List.map_app, <- List.app_assoc. exact Hnd.
    + intros Hin. apply (Hfresh k Hin). simpl. left.
Qed.

Lemma object_of_members (ms : list (string * json)) :
  NoDup (keys ms) -> object_of ms = JObj ms.
Proof. intros Hnd. unfold object_of. now rewrite fold_set_member. Qed.

(** ** The round trip *)

Lemma stringify_at_items (indent : nat) (x : json) (xs : list json) (rest : string) :
  stringify_at indent (JArr (x :: xs)) +:+ rest
  = String "[" (String LF (spaces (2 + indent) +:+ stringify_at (2 + indent) x
                           +:+ items_tail indent xs +:+ rest)).
Proof.
  change (stringify_at indent (JArr (x :: xs)))
    with (String "[" (String LF (spaces (2 + indent) +:+ stringify_at (2 + indent) x
                                 +:+ items_tail indent xs))).
  cbn [String.append]. now rewrite !append_assoc.
Qed.

Lemma stringify_at_members (indent : nat) (k : string) (x : json)
    (ms : list (string * json)) (rest : string) :
  stringify_at indent (JObj ((k, x) :: ms)) +:+ rest
  = String "{" (String LF (spaces (2 + indent) +:+ quote k +:+ ": "
                           +:+ stringify_at (2 + indent) x
                           +:+ members_tail indent ms +:+ rest)).
Proof.
  change (stringify_at indent (JObj ((k, x) :: ms)))
    with (String "{" (String LF (spaces (2 + indent) +:+ quote k +:+ ": "
                                 +:+ stringify_at (2 + indent) x
                                 +:+ members_tail indent ms))).
  cbn [String.append]. rewrite !append_assoc.
  cbn [String.append]. now rewrite !append_assoc.
Qed.

(** One step of [parse_value] on an opening bracket or brace that is not
    closed at once. *)
Lemma parse_value_array (fuel : nat) (r : string) (c : ascii) (r' : string) :
  skip_ws r = String c r' -> Ascii.eqb c "]" = false ->
  parse_value (S fuel) (String "[" r)
  = '(vs, r'') ← parse_elements fuel r; Some (JArr vs, r'').
Proof.
  intros Hskip Hc. cbn [parse_value skip_ws].
  cbn -[parse_elements skip_ws]. now rewrite Hskip, Hc.
Qed.

Lemma parse_value_object (fuel : nat) (r : string) (c : ascii) (r' : string) :
  skip_ws r = String c r' -> Ascii.eqb c "}" = false ->
  parse_value (S fuel) (String "{" r)
  = '(ms, r'') ← parse_members fuel r; Some (object_of ms, r'').
Proof.
  intros Hskip Hc. cbn [parse_value skip_ws].
  cbn -[parse_members skip_ws object_of]. now rewrite Hskip, Hc.
Qed.

Lemma representable_round_trips (v : json) : representable v -> round_trips v.
Proof.
  induction v as [ | b | n | s | items IH | ms IH ] using json_induction;
    intros Hrep indent rest fuel Hfuel Hrest.
  - enough_fuel fuel Hfuel. reflexivity.
  - enough_fuel fuel Hfuel. destruct b; reflexivity.
  - enough_fuel fuel Hfuel.
    pose proof (parse_number_round_trip n rest Hrep Hrest) as Hparse.
    cbn [stringify_at]. unfold number_to_string.
    destruct (negative n) eqn:Hneg.
    + cbn [String.append parse_value skip_ws].
      cbn -[parse_number unsigned_to_string String.append]. now rewrite Hparse.
    + destruct (unsigned_to_string_head n Hrep) as (c & r & Heq & Hd).
      pose proof (digit_starts_value c Hd) as (Hws & _ & _).
      pose proof (digit_cases c Hd) as Hc.
      rewrite Heq in Hparse |- *. cbn [String.append] in Hparse |- *.
      cbn [parse_value skip_ws]. rewrite Hws.
      simpl in Hc.
      repeat (destruct Hc as [ <- | Hc ];
              [ cbn -[parse_number]; rewrite Hparse; reflexivity | ]).
      destruct Hc.
  - enough_fuel fuel Hfuel.
    cbn [stringify_at parse_value]. unfold quote. cbn [String.append skip_ws].
    cbn -[parse_string_body quote_body String.append].
    now rewrite parse_string_body_quote.
  - enough_fuel fuel Hfuel.
    destruct items as [ | x xs ]; [ reflexivity | ].
    apply representable_items in Hrep.
    assert (Hall : Forall round_trips (x :: xs)).
    { apply Forall_forall. intros y Hy.
      rewrite Forall_forall in IH, Hrep. now apply IH; [ | apply Hrep ]. }
    inversion Hall as [ | ? ? Hx Hxs ]; subst.
    rewrite stringify_at_items.
    destruct (skip_ws_value (2 + indent) x (items_tail indent xs +:+ rest))
      as (c & r & _ & (_ & Hc & _) & Hskip);
      [ now inversion Hrep | ].
    rewrite (parse_value_array fuel _ c (r +:+ items_tail indent xs +:+ rest));
      [ | now rewrite skip_ws_indented | exact Hc ].
    rewrite parse_elements_items; [ reflexivity | assumption .. | | assumption ].
    change (size (JArr (x :: xs))) with (S (items_size (x :: xs))) in Hfuel. lia.
  - enough_fuel fuel Hfuel.
    destruct ms as [ | [k x] ms ]; [ reflexivity | ].
    apply representable_members in Hrep as [Hnd Hrep].
    assert (Hall : Forall (fun kv => round_trips (snd kv)) ((k, x) :: ms)).
    { apply Forall_forall. intros y Hy.
      rewrite Forall_forall in IH, Hrep. now apply IH; [ | apply Hrep ]. }
    inversion Hall as [ | ? ? Hx Hxs ]; subst. simpl in Hx.
    rewrite stringify_at_members.
    rewrite (parse_value_object fuel _ dquote
               (quote_body k +:+ ": " +:+ stringify_at (2 + indent) x
                +:+ members_tail indent ms +:+ rest));
      [ | now rewrite skip_ws_indented | reflexivity ].
    rewrite parse_members_members; [ | assumption .. | | assumption ].
    + cbn [mbind option_bind]. now rewrite object_of_members.
    + change (size (JObj ((k, x) :: ms))) with (S (members_size ((k, x) :: ms))) in Hfuel.
      lia.
Qed.

(** The text of a value is, but for one character, at least as long as
    the value is large, so one more than the length of the text is enough
    fuel to read it. *)
Lemma size_le_length (v : json) :
  forall indent, size v <= S (String.length (stringify_at indent v)).
Proof.
  induction v as [ | b | n | s | items IH | ms IH ] using json_induction; intros indent.
  - simpl. lia.
  - simpl. lia.
  - simpl. lia.
  - simpl. lia.
  - destruct items as [ | x xs ]; [ simpl; lia | ].
    inversion IH as [ | ? ? Hx Hxs ]; subst.
    change (stringify_at indent (JArr (x :: xs)))
      with (String "[" (String LF (spaces (2 + indent) +:+ stringify_at (2 + indent) x
                                   +:+ items_tail indent xs))).
    assert (Htail : items_size xs < String.length (items_tail indent xs)).
    { clear Hx IH. induction Hxs as [ | y ys Hy _ IHys ].
      - simpl. lia.
      - cbn [items_tail items_size String.length].
        rewrite !length_append, length_spaces. specialize (Hy (2 + indent)). lia. }
    change (size (JArr (x :: xs))) with (S (S (size x + items_size xs))).
    cbn [String.length]. rewrite !length_append.
    specialize (Hx (2 + indent)). lia.
  - destruct ms as [ | [k x] ms ]; [ simpl; lia | ].
    inversion IH as [ | ? ? Hx Hxs ]; subst. cbn [snd] in Hx.
    change (stringify_at indent (JObj ((k, x) :: ms)))
      with (String "{" (String LF (spaces (2 + indent) +:+ quote k +:+ ": "
                                   +:+ stringify_at (2 + indent) x
                                   +:+ members_tail indent ms))).
    assert (Htail : members_size ms < String.length (members_tail indent ms)).
    { clear Hx IH. induction Hxs as [ | [k' y] ys Hy _ IHys ].
      - simpl. lia.
      - cbn [members_tail members_size String.length].
        rewrite !length_append, length_spaces. specialize (Hy (2 + indent)).
        cbn [snd] in Hy. lia. }
    change (size (JObj ((k, x) :: ms))) with (S (S (size x + members_size ms))).
    cbn [String.length]. rewrite !length_append.
    specialize (Hx (2 + indent)). lia.
Qed.

Lemma representableb_sound (v : json) : representableb v = true -> representable v.
Proof.
  induction v as [ | b | x | s | items IH | ms IH ] using json_induction;
    cbn [representableb]; intros H; try exact I.
  - exact H.
  - apply representable_items. rewrite Forall_forall in IH |- *.
    rewrite forallb_forall in H. intros y Hy.
    apply (IH y Hy), H. now apply list_elem_of_In.
  - apply andb_true_iff in H as [Hnd H]. apply representable_members.
    split; [ exact (bool_decide_unpack _ (Is_true_true_2 _ Hnd)) | ].
    rewrite Forall_forall in IH |- *. rewrite forallb_forall in H.
    intros [k y] Hy. apply (IH (k, y) Hy).
    exact (H (k, y) (proj1 (list_elem_of_In _ _) Hy)).
Qed.

Lemma parse_stringify (v : json) :
  representable v -> parse (stringify v) = Some v.
Proof.
  intros Hrep. unfold parse, stringify.
  rewrite <- (append_empty_r (stringify_at 0 v)) at 2.
  rewrite (representable_round_trips v Hrep 0 EmptyString _ (size_le_length v 0) I).
  reflexivity.
Qed.

End JsonFacts.

Module DateFacts.
Import Date JsonFacts.
Local Arguments String.append !s1 s2 : simpl nomatch.
Local Open Scope Z_scope.

Lemma civil_from_days_range (days : Z) :
  let '(y, m, d) := civil_from_days days in
  1 <= m <= 12 /\ 1 <= d <= 31.
Proof.
  unfold civil_from_days.
  set (z := days + 719468).
  set (era := z / 146097).
  set (doe := z - era * 146097).
  set (yoe := (doe - doe / 1460 + doe / 36524 - doe / 146096) / 365).
  set (doy := doe - (365 * yoe + yoe / 4 - yoe / 100)).
  set (mp := (5 * doy + 2) / 153).
  assert (Hdoe : 0 <= doe <= 146096).
  { subst doe era. pose proof (Z.mod_pos_bound z 146097 ltac:(lia)) as H.
    rewrite Z.mod_eq in H by lia. lia. }
  assert (Hyoe : 0 <= yoe <= 399).
  { subst yoe. Z.div_mod_to_equations. lia. }
  assert (Hdoy : 0 <= doy <= 365).
  { subst doy yoe. Z.div_mod_to_equations. lia. }
  assert (Hmp : 0 <= mp <= 11).
  { subst mp. Z.div_mod_to_equations. lia. }
  split.
  - destruct (mp <? 10) eqn:E; [ apply Z.ltb_lt in E | apply Z.ltb_ge in E ]; lia.
  - subst mp. Z.div_mod_to_equations. lia.
Qed.

(** The fields [toISOString] writes are in their ranges. *)
Lemma toISOString_fields (t : Z) :
  exists y m d h mi sec ms,
    toISOString t
    = year_string y +:+ "-" +:+ pad 2 m +:+ "-" +:+ pad 2 d +:+ "T"
        +:+ pad 2 h +:+ ":" +:+ pad 2 mi +:+ ":" +:+ pad 2 sec +:+ "."
        +:+ pad 3 ms +:+ "Z"
    /\ 1 <= m <= 12 /\ 1 <= d <= 31
    /\ 0 <= h < 24 /\ 0 <= mi < 60 /\ 0 <= sec < 60 /\ 0 <= ms < 1000.
Proof.
  unfold toISOString.
  pose proof (civil_from_days_range (t / msPerDay)) as Hrange.
  destruct (civil_from_days (t / msPerDay)) as [[y m] d].
  pose proof (Z.mod_pos_bound t msPerDay ltac:(reflexivity)) as Hday.
  unfold msPerDay in *.
  eexists y, m, d, _, _, _, _. split; [ reflexivity | ].
  destruct Hrange as [Hm Hd].
  repeat split; try lia;
    first [ apply Z.div_pos; lia
          | apply Z.div_lt_upper_bound; lia
          | apply Z.mod_pos_bound; lia ].
Qed.

Lemma digit_char_is_digit (n : Z) : is_digit (digit_char n) = true.
Proof.
  unfold digit_char.
  pose proof (Z.mod_pos_bound n 10 ltac:(lia)) as Hk.
  set (k := n mod 10) in *.
  assert (Hcases : k = 0 \/ k = 1 \/ k = 2 \/ k = 3 \/ k = 4 \/ k = 5 \/ k = 6
                   \/ k = 7 \/ k = 8 \/ k = 9) by lia.
  repeat (destruct Hcases as [ -> | Hcases ]; [ reflexivity | ]).
  now rewrite Hcases.
Qed.

Lemma digits_snoc (w : nat) : digits (S w) = digits w +:+ "d".
Proof. induction w as [ | w IH ]; [ reflexivity | ]. simpl in *. now rewrite <- IH. Qed.

Lemma matches_append (p1 s1 p2 s2 : string) :
  matches p1 s1 = true -> matches p2 s2 = true ->
  matches (p1 +:+ p2) (s1 +:+ s2) = true.
Proof.
  revert s1. induction p1 as [ | a p1 IH ]; intros [ | c s1 ]; simpl; try discriminate.
  - trivial.
  - intros H1 H2. apply andb_true_iff in H1 as [Hc H1].
    now rewrite Hc, IH.
Qed.

Lemma matches_pad (w : nat) (n : Z) : matches (digits w) (pad w n) = true.
Proof.
  revert n. induction w as [ | w IH ]; intros n; [ reflexivity | ].
  rewrite digits_snoc. cbn [pad]. apply matches_append; [ apply IH | ].
  simpl. now rewrite digit_char_is_digit.
Qed.

(** The text [toISOString] writes has the ISO-8601 shape, whatever the
    time value. *)
Lemma toISOString_shape (t : Z) : is_iso8601 (toISOString t) = true.
Proof.
  unfold toISOString. destruct (civil_from_days (t / msPerDay)) as [[y m] d].
  set (ms := t mod msPerDay).
  assert (Htail :
    matches "-dd-ddTdd:dd:dd.dddZ"
      ("-" +:+ pad 2 m +:+ "-" +:+ pad 2 d +:+ "T" +:+ pad 2 (ms / 3600000) +:+ ":"
       +:+ pad 2 (ms / 60000 mod 60) +:+ ":" +:+ pad 2 (ms / 1000 mod 60) +:+ "."
       +:+ pad 3 (ms mod 1000) +:+ "Z") = true).
  { change "-dd-ddTdd:dd:dd.dddZ"
      with ("-" +:+ digits 2 +:+ "-" +:+ digits 2 +:+ "T" +:+ digits 2 +:+ ":"
            +:+ digits 2 +:+ ":" +:+ digits 2 +:+ "." +:+ digits 3 +:+ "Z").
    repeat (apply matches_append; [ first [ apply matches_pad | reflexivity ] | ]).
    reflexivity. }
  unfold is_iso8601, year_string.
  destruct ((0 <=? y) && (y <=? 9999)).
  - change "dddd-dd-ddTdd:dd:dd.dddZ" with (digits 4 +:+ "-dd-ddTdd:dd:dd.dddZ").
    rewrite matches_append; [ reflexivity | apply matches_pad | exact Htail ].
  - destruct (y <? 0).
    + change "-dddddd-dd-ddTdd:dd:dd.dddZ"
        with ("-" +:+ digits 6 +:+ "-dd-ddTdd:dd:dd.dddZ").
      change (String "-" (pad 6 (- y)) +:+ ?s) with ("-" +:+ pad 6 (- y) +:+ s).
      rewrite (matches_append "-" "-"); [ apply orb_true_r | reflexivity | ].
      apply matches_append; [ apply matches_pad | exact Htail ].
    + change "+dddddd-dd-ddTdd:dd:dd.dddZ"
        with ("+" +:+ digits 6 +:+ "-dd-ddTdd:dd:dd.dddZ").
      change (String "+" (pad 6 y) +:+ ?s) with ("+" +:+ pad 6 y +:+ s).
      rewrite (matches_append "+" "+"); [ | reflexivity | ].
      * apply orb_true_iff. left. apply orb_true_r.
      * apply matches_append; [ apply matches_pad | exact Htail ].
Qed.

End DateFacts.

(* ===================================================================== *)
(** * The response formatter *)
(* ===================================================================== *)

Module FormatterFacts.
Import ResponseFormatter.

(** C5.  Round trip: for every payload that JSON can represent, the success
    formatter returns an envelope with a single text item, and parsing the
    text of that item as JSON gives back the payload. *)
Theorem formatSuccess_round_trip (payload : json) :
  representable payload ->
  exists item,
    formatSuccess payload = SuccessEnvelope [item]
    /\ type item = "text"
    /\ JSON.parse (text item) = Some payload.
Proof.
  intros Hrep. eexists. split; [ reflexivity | ]. split; [ reflexivity | ].
  cbn [text]. now apply JsonFacts.parse_stringify.
Qed.

Lemma formatSuccess_round_trip_witness :
  let payload :=
    JObj [("departures", JArr [JObj [("direction", JStr "Utrecht Centraal");
                                     ("delay", JInt (-2));
                                     ("lat", JNum {| negative := false; digits := "5237"; point := 2 |});
                                     ("cancelled", JBool false)]]);
          ("note", JNull)] in
  representable payload /\
  exists item,
    formatSuccess payload = SuccessEnvelope [item]
    /\ type item = "text"
    /\ JSON.parse (text item) = Some payload.
Proof.
  intros payload.
  assert (Hrep : representable payload)
    by (apply JsonFacts.representableb_sound; reflexivity).
  split; [ exact Hrep | exact (formatSuccess_round_trip payload Hrep) ].
Defined.

(** C6.  The error formatter is total: whatever was thrown, a protocol
    error, an upstream HTTP error, a plain error or a value that is not
    an object, it returns an error envelope and does not throw. *)
Theorem formatError_total (error : Thrown) :
  exists envelope, formatError error = Ok envelope /\ is_error envelope = true.
Proof. destruct error; simpl; eauto. Qed.

End FormatterFacts.

(* ===================================================================== *)
(** * The upstream client *)
(* ===================================================================== *)

Module ClientFacts.
Import NSApiService.

Lemma call_without_key (m : Method) (svc : t) (args : json) (log : list HttpGet) :
  apiKeyMissing svc = true ->
  call m svc args log = (Throw (ThrownError configurationMessage), log).
Proof.
  intros Hkey.
  destruct m; cbv [call getDisruptions getTravelAdvice getDepartures getOVFiets
                   getStationInfo getArrivals getPrices bind ensureApiKeyConfigured];
    rewrite Hkey; reflexivity.
Qed.

Lemma runAll_without_key (svc : t) (calls : list (Method * json)) (log : list HttpGet) :
  apiKeyMissing svc = true ->
  runAll svc calls log
  = (map (fun _ => Throw (ThrownError configurationMessage)) calls, log).
Proof.
  intros Hkey. induction calls as [ | [m args] calls IH ]; [ reflexivity | ].
  cbn [runAll map]. now rewrite (call_without_key m svc args log Hkey), IH.
Qed.

(** With a credential, every method issues exactly one request, to its own
    endpoint, with the credential in a header and not in the query. *)
Lemma call_with_key (m : Method) (svc : t) (args : json) (log : list HttpGet) :
  apiKeyMissing svc = false ->
  call m svc args log
  = (axiosInstance svc
       {| url := BASE_URL +:+ endpoint m;
          headers := [("Ocp-Apim-Subscription-Key", apiKey svc)];
          params := query m args |},
     (log ++ [ {| url := BASE_URL +:+ endpoint m;
                  headers := [("Ocp-Apim-Subscription-Key", apiKey svc)];
                  params := query m args |} ])%list).
Proof.
  intros Hkey.
  destruct m; unfold call, getDisruptions, getTravelAdvice, getDepartures, getOVFiets,
                   getStationInfo, getArrivals, getPrices, bind, ensureApiKeyConfigured;
    rewrite Hkey; unfold ret, get, query, endpoint; reflexivity.
Qed.

(** ** What reaches the query *)

Lemma serialize_cons (k : string) (o : option json) (ps : list (string * option json)) :
  serialize ((k, o) :: ps)
  = match o with
    | None | Some JNull => serialize ps
    | Some v => (k, v) :: serialize ps
    end.
Proof. destruct o as [ [] | ]; reflexivity. Qed.

Lemma in_serialize (k : string) (v : json) (ps : list (string * option json)) :
  In (k, v) (serialize ps) <-> In (k, Some v) ps /\ v <> JNull.
Proof.
  induction ps as [ | [k' o] ps IH ]; [ simpl; tauto | ].
  rewrite serialize_cons. cbn [In].
  assert (Hhead : forall v', v' <> JNull ->
            (In (k, v) ((k', v') :: serialize ps)
             <-> ((k', Some v') = (k, Some v) \/ In (k, Some v) ps) /\ v <> JNull)).
  { intros v' Hv'. cbn [In]. rewrite IH. split.
    - intros [ H | H ]; [ injection H as <- <-; tauto | tauto ].
    - intros [ [ H | H ] Hv ]; [ injection H as <- <-; now left | tauto ]. }
  destruct o as [ v' | ].
  - destruct v'; try (apply Hhead; discriminate).
    rewrite IH. split; [ tauto | ].
    intros [ [ H | H ] Hv ]; [ injection H as <- <-; congruence | tauto ].
  - rewrite IH. split; [ tauto | ].
    intros [ [ H | H ] Hv ]; [ discriminate | tauto ].
Qed.

Lemma in_keys_serialize (k : string) (ps : list (string * option json)) :
  In k (map fst (serialize ps)) -> exists v, In (k, Some v) ps.
Proof.
  intros H. apply in_map_iff in H as ([k' v] & Hk & Hin). simpl in Hk. subst k'.
  apply in_serialize in Hin as [Hin _]. eauto.
Qed.

(** C4, as stated, fails: [getStationInfo] does not omit an absent [limit],
    it sends its default. *)
Lemma absent_limit_is_sent :
  ~ passedOrOmitted GetStationInfo (JObj [("query", JStr "Utrecht")]) "limit".
Proof.
  intros [_ Homitted]. apply Homitted; [ reflexivity | ].
  simpl. tauto.
Qed.

(** [getDepartures] leaves [uicCode] out of its query although it is
    provided; [getArrivals] passes it. *)
Lemma getDepartures_drops_uicCode :
  let args := JObj [("uicCode", JStr "8400058")] in
  field args "uicCode" = Some (JStr "8400058")
  /\ query GetDepartures args = []
  /\ query GetArrivals args = [("uicCode", JStr "8400058")].
Proof. repeat split. Qed.

Lemma provided_in_query (ps : list (string * option json)) (k : string)
    (o : option json) (v : json) :
  In (k, o) ps -> o = Some v -> v <> JNull -> In (k, v) (serialize ps).
Proof. intros Hin -> Hv. apply in_serialize. tauto. Qed.

Lemma nullish_provided (o : option json) (d v : json) :
  o = Some v -> v <> JNull -> nullish o d = Some v.
Proof. intros -> Hv. destruct v; simpl; congruence. Qed.

Lemma absent_not_in_query (ps : list (string * option json)) (k : string) :
  (forall o, In (k, o) ps -> o = None) -> ~ In k (map fst (serialize ps)).
Proof.
  intros Hall Hin. apply in_keys_serialize in Hin as [v Hin].
  specialize (Hall _ Hin). discriminate.
Qed.

(** C4, amended.  For every method and every declared field of its
    argument record, [uicCode] of [getDepartures] aside: a field provided
    with a value other than null is in the query, under the parameter name
    of the endpoint; an absent field is left out, except that
    [getStationInfo] sends [false] for an absent
    [includeNonPlannableStations] and [10] for an absent [limit]. *)
Theorem fields_reach_query (m : Method) (args : json) (f : string) :
  In f (declaredFields m) ->
  (m, f) <> (GetDepartures, "uicCode") ->
  (forall v, field args f = Some v -> v <> JNull ->
             In (paramName m f, v) (query m args))
  /\ (field args f = None ->
      match defaultOf m f with
      | Some d => In (paramName m f, d) (query m args)
      | None => ~ In (paramName m f) (map fst (query m args))
      end).
Proof.
  intros Hin Hnot.
  destruct m; cbn [declaredFields In] in Hin;
    repeat (destruct Hin as [ <- | Hin ]; [ | ]); try destruct Hin; try congruence;
    repeat match goal with
           | |- context [paramName ?m ?f] =>
               let k := eval vm_compute in (paramName m f) in
               change (paramName m f) with k
           | |- context [defaultOf ?m ?f] =>
               let d := eval vm_compute in (defaultOf m f) in
               change (defaultOf m f) with d
           end;
    cbv iota;
    (split;
     [ intros v Hv Hnull; unfold query, disruptionsParams, travelAdviceParams,
         departuresParams, ovFietsParams, stationInfoParams, arrivalsParams, pricesParams;
       eapply provided_in_query;
       [ find_entry
       | first [ exact Hv | apply nullish_provided; assumption ]
       | exact Hnull ]
     | intros Hnone; unfold query, disruptionsParams, travelAdviceParams,
         departuresParams, ovFietsParams, stationInfoParams, arrivalsParams, pricesParams;
       first [ apply absent_not_in_query; no_entry Hnone
             | apply in_serialize; split; [ | discriminate ];
               rewrite Hnone; find_entry ] ]).
Qed.

Lemma fields_reach_query_witness :
  let args := JObj [("station", JStr "UT"); ("maxJourneys", JInt 5)] in
  In "maxJourneys" (declaredFields GetDepartures)
  /\ (GetDepartures, "maxJourneys") <> (GetDepartures, "uicCode")
  /\ In ("maxJourneys", JInt 5) (query GetDepartures args)
  /\ ~ In "lang" (map fst (query GetDepartures args)).
Proof.
  intros args.
  assert (H1 : In "maxJourneys" (declaredFields GetDepartures)) by (simpl; tauto).
  assert (H2 : (GetDepartures, "maxJourneys") <> (GetDepartures, "uicCode")) by congruence.
  assert (H3 : In "lang" (declaredFields GetDepartures)) by (simpl; tauto).
  assert (H4 : (GetDepartures, "lang") <> (GetDepartures, "uicCode")) by congruence.
  split; [ exact H1 | ]. split; [ exact H2 | ]. split.
  - apply (proj1 (fields_reach_query GetDepartures args "maxJourneys" H1 H2));
      [ reflexivity | discriminate ].
  - exact (proj2 (fields_reach_query GetDepartures args "lang" H3 H4) eq_refl).
Defined.

End ClientFacts.

(* ===================================================================== *)
(** * The call-tool handler *)
(* ===================================================================== *)

Module DispatcherFacts.
Import ResponseFormatter Types NSApiService NSHttpServer.

(** C1.  Whatever the tool name and the argument bag, and whatever the
    upstream does, the handler returns an envelope and throws nothing:
    what the switch returns is returned, and what it throws (at tool
    identification, at validation or in the upstream call) is caught and
    turned into an envelope by the error formatter. *)
Theorem callTool_never_throws (srv : Server) (request : CallToolRequest)
    (log : list HttpGet) :
  exists envelope log',
    callTool srv request log = (Ok envelope, log')
    /\ match switch srv (name request) (rawArgsOf request) log with
       | (Ok returned, l) => envelope = returned /\ log' = l
       | (Throw error, l) => formatError error = Ok envelope /\ log' = l
       end.
Proof.
  unfold callTool, try_catch.
  destruct (switch srv (name request) (rawArgsOf request) log) as [[returned | error] l].
  - eauto.
  - unfold lift. destruct error; simpl; eauto.
Qed.

(** The two rejections the switch itself raises. *)
Lemma validated_rejects (toolName : string) (isValid : json -> bool)
    (method : NSApiService.t -> json -> Net json) (srv : Server) (rawArgs : json)
    (log : list HttpGet) :
  isValid rawArgs = false ->
  try_catch (validated toolName isValid method srv rawArgs)
            (fun error => lift (formatError error)) log
  = (Ok (ErrorEnvelope InvalidParams ("Invalid arguments for " +:+ toolName)), log).
Proof. intros H. unfold try_catch, validated. now rewrite H. Qed.

Lemma callTool_unknown_tool (srv : Server) (arguments : option json)
    (log : list HttpGet) :
  callTool srv {| name := "get_weather"; arguments := arguments |} log
  = (Ok (ErrorEnvelope MethodNotFound "Unknown tool: get_weather"), log).
Proof. reflexivity. Qed.

Lemma callTool_currentTime (srv : Server) (arguments : option json)
    (log : list HttpGet) :
  callTool srv (currentTime arguments) log
  = (Ok (formatSuccess (currentTimePayload (clock srv))), log).
Proof. reflexivity. Qed.



(** C10.  get_current_time_in_rfc3339 does not look at its arguments: for
    every argument bag, absent, empty, or with any fields of any type,
    the call succeeds with the payload it returns for the empty bag and
    sends nothing upstream. *)
Theorem currentTime_ignores_arguments (srv : Server) (arguments : option json)
    (log : list HttpGet) :
  callTool srv (currentTime arguments) log
  = callTool srv (currentTime (Some (JObj []))) log
  /\ callTool srv (currentTime arguments) log
     = (Ok (formatSuccess (currentTimePayload (clock srv))), log).
Proof. now rewrite !callTool_currentTime. Qed.

(** ** Calls without a credential *)

(** C3.  Without a credential every method of the client, on every
    argument record and on every call, throws the configuration error
    before it sends anything: the log of requests is unchanged.  The
    get_disruptions call with {isActive: true} then ends in an internal
    error whose message, the message of the configuration error,
    identifies the missing configuration, and nothing is sent. *)
Theorem missing_key_fails_before_network (svc : NSApiService.t) :
  apiKeyMissing svc = true ->
  (forall m args log,
      call m svc args log = (Throw (ThrownError configurationMessage), log))
  /\ (forall calls log,
         runAll svc calls log
         = (map (fun _ => Throw (ThrownError configurationMessage)) calls, log))
  /\ (forall now log,
         callTool {| nsApiService := svc; clock := now |} disruptionsRequest log
         = (Ok (ErrorEnvelope InternalError configurationMessage), log)
         /\ reportsMissingConfiguration
              (fst (callTool {| nsApiService := svc; clock := now |}
                      disruptionsRequest log))).
Proof.
  intros Hkey.
  assert (Hcall : forall now log,
    callTool {| nsApiService := svc; clock := now |} disruptionsRequest log
    = (Ok (ErrorEnvelope InternalError configurationMessage), log)).
  { intros now log.
    unfold callTool, try_catch, disruptionsRequest. cbn [name rawArgsOf arguments truthy].
    change (switch _ "get_disruptions" ?a)
      with (validated "get_disruptions" isValidDisruptionsArgs getDisruptions
              {| nsApiService := svc; clock := now |} a).
    unfold validated.
    change (isValidDisruptionsArgs (JObj [("isActive", JBool true)])) with true.
    cbn [negb nsApiService]. unfold bind at 1.
    change getDisruptions with (call GetDisruptions).
    now rewrite (ClientFacts.call_without_key GetDisruptions svc _ log Hkey). }
  split; [ | split ].
  - intros m args log. now apply ClientFacts.call_without_key.
  - intros calls log. now apply ClientFacts.runAll_without_key.
  - intros now log. split; [ apply Hcall | ].
    rewrite Hcall. exists configurationMessage. split; reflexivity.
Qed.

Lemma missing_key_fails_before_network_witness :
  let svc := {| apiKey := Some EmptyString; axiosInstance := fun _ => Ok (JArr []) |} in
  apiKeyMissing svc = true
  /\ call GetPrices svc (JObj [("fromStation", JStr "ASD")]) []
     = (Throw (ThrownError configurationMessage), [])
  /\ callTool {| nsApiService := svc; clock := 0 |} disruptionsRequest []
     = (Ok (ErrorEnvelope InternalError configurationMessage), []).
Proof.
  intros svc. split; [ reflexivity | ]. split.
  - exact (proj1 (missing_key_fails_before_network svc eq_refl) GetPrices _ []).
  - exact (proj1 (proj2 (proj2 (missing_key_fails_before_network svc eq_refl)) 0%Z [])).
Defined.

End DispatcherFacts.

(* ===================================================================== *)
(** * The argument validators *)
(* ===================================================================== *)

Module ValidatorFacts.
Import Types.

Lemma assoc_set_member_same (k : string) (v : json) (ms : list (string * json)) :
  assoc k (set_member k v ms) = Some v.
Proof.
  induction ms as [ | [k' v'] ms IH ]; simpl.
  - now rewrite String.eqb_refl.
  - destruct (String.eqb k k') eqn:E; simpl.
    + now rewrite String.eqb_refl.
    + now rewrite E.
Qed.

Lemma assoc_set_member_other (k k' : string) (v : json) (ms : list (string * json)) :
  k' <> k -> assoc k' (set_member k v ms) = assoc k' ms.
Proof.
  intros Hne. induction ms as [ | [k0 v0] ms IH ]; simpl.
  - destruct (String.eqb_spec k' k); [ contradiction | reflexivity ].
  - destruct (String.eqb_spec k k0) as [ <- | Hk ]; simpl.
    + destruct (String.eqb_spec k' k); [ contradiction | reflexivity ].
    + now rewrite IH.
Qed.

(** C7.  The validators of get_departures and get_arrivals reject every
    bag that has neither [station] nor [uicCode]; with the fields of the
    bag valid, they accept it when exactly one of the two is present, and
    also when both are. *)
Theorem station_or_uicCode (args : json) :
  (present args "station" = false -> present args "uicCode" = false ->
   isValidDeparturesArgs args = false /\ isValidArrivalsArgs args = false)
  /\ (stationBoardFields args = true ->
      xorb (present args "station") (present args "uicCode") = true ->
      isValidDeparturesArgs args = true /\ isValidArrivalsArgs args = true)
  /\ (stationBoardFields args = true ->
      present args "station" = true -> present args "uicCode" = true ->
      isValidDeparturesArgs args = true /\ isValidArrivalsArgs args = true).
Proof.
  unfold isValidDeparturesArgs, isValidArrivalsArgs, stationBoardArgs.
  repeat split; intros; destruct (present args "station"), (present args "uicCode");
    simpl in *; congruence.
Qed.

Lemma station_or_uicCode_witness :
  let args := JObj [("uicCode", JStr "8400621"); ("maxJourneys", JInt 10)] in
  stationBoardFields args = true
  /\ xorb (present args "station") (present args "uicCode") = true
  /\ isValidDeparturesArgs args = true
  /\ isValidArrivalsArgs args = true.
Proof.
  intros args. split; [ reflexivity | ]. split; [ reflexivity | ].
  exact (proj1 (proj2 (station_or_uicCode args)) eq_refl eq_refl).
Defined.

(** C8.  The validator of get_prices rejects a bag with [adults: 0] and a
    bag with [children: -1]; of two bags that differ only in [adults: 0]
    and [adults: 1] it rejects the first and accepts the second, the rest
    being valid (that is, some value of [adults] makes the bag valid). *)
Theorem prices_passenger_counts (ms : list (string * json)) :
  isValidPricesArgs (JObj (set_member "adults" (JInt 0) ms)) = false
  /\ isValidPricesArgs (JObj (set_member "children" (JInt (-1)) ms)) = false
  /\ (forall v,
         isValidPricesArgs (JObj (set_member "adults" v ms)) = true ->
         isValidPricesArgs (JObj (set_member "adults" (JInt 1) ms)) = true).
Proof.
  unfold isValidPricesArgs, optional, required, field.
  split; [ | split ].
  - rewrite assoc_set_member_same. cbn [isIntegerFrom Z.leb Z.compare].
    now rewrite !andb_false_r.
  - rewrite assoc_set_member_same. cbn [isIntegerFrom Z.leb Z.compare].
    now rewrite !andb_false_r.
  - intros v. rewrite !assoc_set_member_same.
    rewrite !assoc_set_member_other by discriminate.
    cbn [isIntegerFrom Z.leb Z.compare].
    intros H. repeat (apply andb_true_iff in H as [H ?]).
    repeat (apply andb_true_iff; split); assumption || reflexivity.
Qed.

Lemma prices_passenger_counts_witness :
  let ms := [("fromStation", JStr "ASD"); ("toStation", JStr "RTD");
             ("adults", JInt 0)] in
  isValidPricesArgs (JObj (set_member "adults" (JInt 2) ms)) = true
  /\ isValidPricesArgs (JObj ms) = false
  /\ isValidPricesArgs (JObj (set_member "adults" (JInt 1) ms)) = true.
Proof.
  intros ms. split; [ reflexivity | ]. split.
  - exact (proj1 (prices_passenger_counts ms)).
  - exact (proj2 (proj2 (prices_passenger_counts ms)) (JInt 2) eq_refl).
Defined.

End ValidatorFacts.

(* ===================================================================== *)
(** * The /mcp routes *)
(* ===================================================================== *)

Module TransportFacts.
Import NSHttpServer.

Section Routes.

Variable isInitializeRequest : json -> bool.
Variable connect : Transport -> Result unit.
Variable handleRequest : Transport -> HttpRequest -> list Callback * Outcome.

Lemma delegate_constructed (st : State) (transport : Transport)
    (req : HttpRequest) (onError : Body) :
  constructed (fst (delegate handleRequest st transport req onError))
  = constructed st.
Proof.
  unfold delegate. destruct (handleRequest transport req) as [fired outcome].
  destruct (fold_left runCallback fired (transport, transports st)) as [t ts].
  destruct outcome; reflexivity.
Qed.

Lemma known_nonEmpty (st : State) (h : option string) :
  nonEmpty h = None -> known st h = None.
Proof. unfold known. now intros ->. Qed.

(** C2.  A request on /mcp whose session identifier is absent or unknown
    (a POST whose body is not an initialization message, any GET, any
    DELETE) is answered with status 400 and leaves the session map as it
    was.  A transport object is constructed by exactly one kind of
    request: a POST without a session identifier whose body is an
    initialization message.  The map holds at most one transport per
    identifier. *)
Theorem unknown_session_rejected (st : State) (req : HttpRequest) :
  (known st (sessionHeader req) = None ->
   (method req = POST -> isInitializeRequest (body req) = false) ->
   exists response,
     mcp isInitializeRequest connect handleRequest st req = (st, response)
     /\ status response = 400%Z)
  /\ (constructsTransport isInitializeRequest st req = true
      <-> method req = POST
          /\ nonEmpty (sessionHeader req) = None
          /\ isInitializeRequest (body req) = true)
  /\ constructed (fst (mcp isInitializeRequest connect handleRequest st req))
     = (if constructsTransport isInitializeRequest st req
        then S (constructed st) else constructed st)
  /\ (forall sid t1 t2,
         transports (fst (mcp isInitializeRequest connect handleRequest st req)) !! sid
         = Some t1 ->
         transports (fst (mcp isInitializeRequest connect handleRequest st req)) !! sid
         = Some t2 ->
         t1 = t2).
Proof.
  split; [ | split; [ | split ] ].
  - intros Hknown Hinit.
    unfold NSHttpServer.mcp, postMcp, getMcp, deleteMcp, routePost.
    rewrite Hknown. destruct (method req).
    + destruct (nonEmpty (sessionHeader req)); [ eauto | ].
      rewrite (Hinit eq_refl). eauto.
    + eauto.
    + eauto.
  - unfold NSHttpServer.constructsTransport, routePost.
    destruct (method req); [ | split; [ discriminate | intros [? _]; discriminate ] .. ].
    destruct (nonEmpty (sessionHeader req)) as [sid | ] eqn:Hsid.
    + destruct (known st (sessionHeader req));
        (split; [ discriminate | intros (_ & ? & _); discriminate ]).
    + rewrite (known_nonEmpty st _ Hsid).
      destruct (isInitializeRequest (body req)); intuition congruence.
  - unfold NSHttpServer.mcp, NSHttpServer.constructsTransport, postMcp, getMcp, deleteMcp.
    destruct (method req).
    + destruct (routePost isInitializeRequest st req).
      * apply delegate_constructed.
      * destruct (connect _); [ | reflexivity ].
        now rewrite delegate_constructed.
      * reflexivity.
    + destruct (known st (sessionHeader req));
        [ apply delegate_constructed | reflexivity ].
    + destruct (known st (sessionHeader req));
        [ apply delegate_constructed | reflexivity ].
  - intros sid t1 t2 H1 H2. congruence.
Qed.

End Routes.

Lemma unknown_session_rejected_witness :
  let isInitializeRequest := fun body => Types.present body "method" in
  let connect := fun _ : Transport => Ok tt in
  let handleRequest :=
    fun (_ : Transport) (_ : HttpRequest) =>
      ([OnClose], Responded {| status := 200; content := TextBody "closed" |}) in
  let st := {| transports := {[ "a1" := {| serial := 0; sessionId := Some "a1" |} ]};
               constructed := 1 |} in
  let req := {| method := POST; sessionHeader := Some "b2";
                body := JObj [("jsonrpc", JStr "2.0"); ("id", JInt 7)] |} in
  known st (sessionHeader req) = None
  /\ (method req = POST -> isInitializeRequest (body req) = false)
  /\ exists response,
       mcp isInitializeRequest connect handleRequest st req = (st, response)
       /\ status response = 400%Z.
Proof.
  intros isInitializeRequest connect handleRequest st req.
  assert (Hknown : known st (sessionHeader req) = None) by reflexivity.
  assert (Hpost : method req = POST -> isInitializeRequest (body req) = false)
    by reflexivity.
  split; [ exact Hknown | ]. split; [ exact Hpost | ].
  exact (proj1 (unknown_session_rejected isInitializeRequest connect handleRequest
                  st req) Hknown Hpost).
Defined.

End TransportFacts.

(* ===================================================================== *)
(** * The upstream client: what a query holds *)
(* ===================================================================== *)

Module QueryFacts.
Import NSApiService Dispatch ListTools.

Lemma provided_none_field (o : option json) (v : json) :
  provided o = None -> o = Some v -> v = JNull.
Proof. intros Hp ->. destruct v; simpl in Hp; congruence. Qed.

Lemma provided_none_nullish (o : option json) (d : json) :
  provided o = None -> nullish o d = Some d.
Proof. destruct o as [ [] | ]; simpl; congruence. Qed.

Lemma nullish_cases (o : option json) (d v : json) :
  nullish o d = Some v -> o = Some v \/ (provided o = None /\ d = v).
Proof.
  destruct o as [ x | ]; [ destruct x | ]; simpl; intros H; injection H as <-;
    first [ left; reflexivity | right; split; reflexivity ].
Qed.

Lemma provided_nullish (o o' : option json) (d : json) :
  provided o = provided o' -> nullish o d = nullish o' d.
Proof.
  destruct o as [ [] | ], o' as [ [] | ]; simpl; intros H;
    first [ reflexivity | discriminate H | injection H; intros; subst; reflexivity ].
Qed.

Lemma serialize_provided (k : string) (o o' : option json)
    (ps ps' : list (string * option json)) :
  provided o = provided o' -> serialize ps = serialize ps' ->
  serialize ((k, o) :: ps) = serialize ((k, o') :: ps').
Proof.
  intros Ho Hps. rewrite !ClientFacts.serialize_cons, Hps.
  destruct o as [ [] | ], o' as [ [] | ]; simpl in Ho;
    first [ reflexivity | discriminate Ho | injection Ho; intros; subst; reflexivity ].
Qed.

(** The parameters of each method, as the list [query] serializes. *)
Lemma query_unfold (m : Method) (args : json) :
  query m args
  = serialize match m with
              | GetDisruptions => disruptionsParams args
              | GetTravelAdvice => travelAdviceParams args
              | GetDepartures => departuresParams args
              | GetOVFiets => ovFietsParams args
              | GetStationInfo => stationInfoParams args
              | GetArrivals => arrivalsParams args
              | GetPrices => pricesParams args
              end.
Proof. reflexivity. Qed.

(** X1.  Nothing reaches the query but the declared fields: every parameter
    of the request a method sends is a declared field of its argument
    record, under the parameter name of the endpoint and with the value the
    caller gave, never null, or it is one of the two values
    [getStationInfo] fills in for a field that is absent or null. *)
Theorem query_holds_only_declared_fields (m : Method) (args : json)
    (k : string) (v : json) :
  In (k, v) (query m args) ->
  v <> JNull
  /\ exists f,
       In f (declaredFields m) /\ k = paramName m f
       /\ (field args f = Some v
           \/ (provided (field args f) = None /\ defaultOf m f = Some v)).
Proof.
  intros H. rewrite query_unfold in H.
  apply ClientFacts.in_serialize in H as [H Hv]. split; [ exact Hv | ].
  destruct m; unfold_params_in H; cbn [In] in H;
    repeat (destruct H as [ H | H ];
            [ injection H as <- Hf;
              lazymatch type of Hf with
              | field _ ?f = Some v =>
                  exists f; split; [ unfold declaredFields; find_entry | ];
                  split; [ reflexivity | left; exact Hf ]
              | nullish (field _ ?f) _ = Some v =>
                  exists f; split; [ unfold declaredFields; find_entry | ];
                  split; [ reflexivity | ];
                  destruct (nullish_cases _ _ _ Hf) as [ Hgiven | [Habsent <-] ];
                  [ left; exact Hgiven | right; split; [ exact Habsent | reflexivity ] ]
              end
            | ]);
    destruct H.
Qed.

Lemma query_holds_only_declared_fields_witness :
  let args := JObj [("query", JStr "Utrecht"); ("limit", JNull);
                    ("verbose", JBool true)] in
  In ("limit", JInt 10) (query GetStationInfo args)
  /\ JInt 10 <> JNull
  /\ exists f,
       In f (declaredFields GetStationInfo) /\ "limit" = paramName GetStationInfo f
       /\ (field args f = Some (JInt 10)
           \/ (provided (field args f) = None
               /\ defaultOf GetStationInfo f = Some (JInt 10))).
Proof.
  intros args.
  assert (Hin : In ("limit", JInt 10) (query GetStationInfo args))
    by (vm_compute; tauto).
  split; [ exact Hin | ].
  exact (query_holds_only_declared_fields GetStationInfo args "limit" (JInt 10) Hin).
Defined.

(** X2.  A method reads its declared fields and nothing else, and takes a
    null for an absent field: two argument records that agree on the
    declared fields, null and absent counting as the same, give the same
    query. *)
Theorem query_reads_declared_fields_only (m : Method) (a b : json) :
  (forall f, In f (declaredFields m) -> provided (field a f) = provided (field b f)) ->
  query m a = query m b.
Proof.
  intros H. rewrite !query_unfold.
  destruct m; unfold_params; unfold declaredFields in H;
    repeat (apply serialize_provided;
            [ first [ apply H; find_entry
                    | f_equal; apply provided_nullish; apply H; find_entry ]
            | ]);
    reflexivity.
Qed.

Lemma query_reads_declared_fields_only_witness :
  let a := JObj [("fromStation", JStr "ASD"); ("toStation", JStr "RTD");
                 ("dateTime", JNull); ("debug", JBool true)] in
  let b := JObj [("toStation", JStr "RTD"); ("fromStation", JStr "ASD")] in
  (forall f, In f (declaredFields GetTravelAdvice) ->
             provided (field a f) = provided (field b f))
  /\ query GetTravelAdvice a = query GetTravelAdvice b.
Proof.
  intros a b.
  assert (H : forall f, In f (declaredFields GetTravelAdvice) ->
                        provided (field a f) = provided (field b f)).
  { intros f Hf. unfold declaredFields in Hf. cbn [In] in Hf.
    repeat (destruct Hf as [ <- | Hf ]; [ reflexivity | ]). destruct Hf. }
  split; [ exact H | exact (query_reads_declared_fields_only GetTravelAdvice a b H) ].
Defined.

(** The declared fields of a method are the properties that the catalog
    gives its tool. *)
Lemma declaredFields_catalog (m : Method) :
  declaredFields m = map fst (propertiesOf (toolOf m)).
Proof. destruct m; reflexivity. Qed.

(** The names of the parameters a method can send. *)
Lemma query_parameter_names (m : Method) (args : json) (k : string) :
  In k (map fst (query m args)) -> In k (map (paramName m) (declaredFields m)).
Proof.
  intros H. rewrite query_unfold in H.
  apply ClientFacts.in_keys_serialize in H as [v H].
  destruct m; unfold_params_in H; cbn [In] in H;
    repeat (destruct H as [ H | H ]; [ injection H as <- _; vm_compute; tauto | ]);
    destruct H.
Qed.

(** X3.  With a credential, a call of any method sends exactly one request:
    a GET of the base URL followed by the path of the method, with the
    credential in the header [Ocp-Apim-Subscription-Key] and in no query
    parameter name, and with the query of the method.  What the upstream
    answers, data or failure, is what the method returns. *)
Theorem call_issues_one_request (m : Method) (svc : t) (args : json)
    (log : list HttpGet) :
  apiKeyMissing svc = false ->
  call m svc args log
  = (axiosInstance svc (requestOf svc m args), (log ++ [requestOf svc m args])%list)
  /\ url (requestOf svc m args) = BASE_URL +:+ endpoint m
  /\ headers (requestOf svc m args) = [("Ocp-Apim-Subscription-Key", apiKey svc)]
  /\ ~ In "Ocp-Apim-Subscription-Key" (map fst (params (requestOf svc m args)))
  /\ length (snd (call m svc args log)) = S (length log).
Proof.
  intros Hkey.
  pose proof (ClientFacts.call_with_key m svc args log Hkey) as Hcall.
  fold (requestOf svc m args) in Hcall.
  split; [ exact Hcall | ]. split; [ reflexivity | ]. split; [ reflexivity | ]. split.
  - intros Hin. apply query_parameter_names in Hin.
    destruct m; vm_compute in Hin;
      repeat (destruct Hin as [ Hin | Hin ]; [ discriminate Hin | ]); destruct Hin.
  - rewrite Hcall. cbn [snd]. rewrite length_app. cbn [length]. lia.
Qed.

Lemma call_issues_one_request_witness :
  let svc := {| apiKey := Some "k-123";
                axiosInstance := fun _ => Throw (ThrownAxios (Some 503%Z) "Service Unavailable") |} in
  let args := JObj [("stationCode", JStr "ut")] in
  apiKeyMissing svc = false
  /\ call GetOVFiets svc args []
     = (Throw (ThrownAxios (Some 503%Z) "Service Unavailable"),
        [ {| url := "https://gateway.apiportal.ns.nl/places-api/v2/ovfiets";
             headers := [("Ocp-Apim-Subscription-Key", Some "k-123")];
             params := [("station_code", JStr "ut")] |} ]).
Proof.
  intros svc args. split; [ reflexivity | ].
  exact (proj1 (call_issues_one_request GetOVFiets svc args [] eq_refl)).
Defined.

(** X4.  [getDepartures] never sends [uicCode]: whatever the argument
    record, the query has no parameter of that name, and a record that
    selects the station by [uicCode] alone goes out with no parameter but
    [dateTime], [maxJourneys] and [lang]. *)
Theorem getDepartures_never_sends_uicCode (args : json) :
  ~ In "uicCode" (map fst (query GetDepartures args))
  /\ (provided (field args "station") = None ->
      forall k, In k (map fst (query GetDepartures args)) ->
                In k ["dateTime"; "maxJourneys"; "lang"]).
Proof.
  split.
  - intros Hin. rewrite query_unfold in Hin.
    apply ClientFacts.in_keys_serialize in Hin as [v Hin].
    unfold departuresParams in Hin. cbn [In] in Hin.
    repeat (destruct Hin as [ Hin | Hin ]; [ discriminate Hin | ]). destruct Hin.
  - intros Habsent k Hin. rewrite query_unfold in Hin.
    apply in_map_iff in Hin as ([k' v] & Hk & Hin). cbn [fst] in Hk. subst k'.
    apply ClientFacts.in_serialize in Hin as [Hin Hv].
    unfold departuresParams in Hin. cbn [In] in Hin.
    destruct Hin as [ Hin | Hin ].
    + injection Hin as _ Hf. now apply (provided_none_field _ _ Habsent) in Hf.
    + repeat (destruct Hin as [ Hin | Hin ];
              [ injection Hin as <- _; cbn [In]; tauto | ]).
      destruct Hin.
Qed.

(** X5.  The values the client fills in are the defaults the catalog
    advertises: when a declared field is absent or null and the query of a
    method nevertheless carries its parameter, the value sent is the
    [default] that the input schema of the tool gives for the field. *)
Theorem fallbacks_are_the_advertised_defaults (m : Method) (args : json)
    (f : string) (d : json) :
  In f (declaredFields m) ->
  provided (field args f) = None ->
  In (paramName m f, d) (query m args) ->
  advertisedDefault (toolOf m) f = Some d.
Proof.
  intros Hf Habsent Hin. rewrite query_unfold in Hin.
  apply ClientFacts.in_serialize in Hin as [Hin Hd].
  destruct m; unfold declaredFields in Hf; cbn [In] in Hf;
    repeat (destruct Hf as [ <- | Hf ]; [ | ]); try destruct Hf;
    match type of Hin with
    | context [paramName ?m ?f] =>
        let k := eval vm_compute in (paramName m f) in
        change (paramName m f) with k in Hin
    end;
    unfold_params_in Hin; cbn [In] in Hin;
    repeat (destruct Hin as [ Hin | Hin ];
            [ first [ discriminate Hin
                    | injection Hin as Hv;
                      first [ contradiction (Hd (provided_none_field _ _ Habsent Hv))
                            | rewrite (provided_none_nullish _ _ Habsent) in Hv;
                              injection Hv as <-; reflexivity ] ]
            | ]);
    destruct Hin.
Qed.

Lemma fallbacks_are_the_advertised_defaults_witness :
  let args := JObj [("query", JStr "Utrecht"); ("limit", JNull)] in
  In "limit" (declaredFields GetStationInfo)
  /\ provided (field args "limit") = None
  /\ In (paramName GetStationInfo "limit", JInt 10) (query GetStationInfo args)
  /\ advertisedDefault (toolOf GetStationInfo) "limit" = Some (JInt 10).
Proof.
  intros args.
  assert (H1 : In "limit" (declaredFields GetStationInfo)) by (vm_compute; tauto).
  assert (H2 : provided (field args "limit") = None) by reflexivity.
  assert (H3 : In (paramName GetStationInfo "limit", JInt 10) (query GetStationInfo args))
    by (vm_compute; tauto).
  split; [ exact H1 | ]. split; [ exact H2 | ]. split; [ exact H3 | ].
  exact (fallbacks_are_the_advertised_defaults GetStationInfo args "limit" (JInt 10) H1 H2 H3).
Defined.

(** X6.  The client keeps nothing between calls: with a credential, a
    sequence of calls sends one request per call, in the order of the
    calls and after the requests already sent, each the request of its own
    method and arguments, and gives back the answers of the upstream in the
    same order; a call repeated is a request repeated. *)
Theorem calls_are_not_cached (svc : t) (calls : list (Method * json))
    (log : list HttpGet) :
  apiKeyMissing svc = false ->
  runAll svc calls log
  = (map (fun c => axiosInstance svc (requestOf svc (fst c) (snd c))) calls,
     (log ++ map (fun c => requestOf svc (fst c) (snd c)) calls)%list).
Proof.
  intros Hkey. revert log.
  induction calls as [ | [m args] calls IH ]; intros log.
  - cbn [runAll map]. now rewrite app_nil_r.
  - cbn [runAll]. rewrite (ClientFacts.call_with_key m svc args log Hkey).
    fold (requestOf svc m args). rewrite IH. cbn [map fst snd].
    now rewrite <- app_assoc.
Qed.

Lemma calls_are_not_cached_witness :
  let svc := {| apiKey := Some "k-123"; axiosInstance := fun _ => Ok (JArr []) |} in
  let args := JObj [("stationCode", JStr "ut")] in
  let request :=
    {| url := "https://gateway.apiportal.ns.nl/places-api/v2/ovfiets";
       headers := [("Ocp-Apim-Subscription-Key", Some "k-123")];
       params := [("station_code", JStr "ut")] |} in
  apiKeyMissing svc = false
  /\ runAll svc [(GetOVFiets, args); (GetOVFiets, args)] []
     = ([Ok (JArr []); Ok (JArr [])], [request; request]).
Proof.
  intros svc args request. split; [ reflexivity | ].
  exact (calls_are_not_cached svc [(GetOVFiets, args); (GetOVFiets, args)] [] eq_refl).
Defined.

End QueryFacts.

(* ===================================================================== *)
(** * The call-tool handler and the catalog *)
(* ===================================================================== *)

Module ToolFacts.
Import ResponseFormatter Types NSApiService NSHttpServer Dispatch ListTools.

(** The [case] of the tool of each method. *)
Lemma switch_toolOf (m : Method) (srv : Server) (rawArgs : json) :
  switch srv (toolOf m) rawArgs
  = validated (toolOf m) (validatorOf m) (call m) srv rawArgs.
Proof. destruct m; reflexivity. Qed.

Lemma append_one_longer {A} (l : list A) (x : A) : (l ++ [x])%list <> l.
Proof.
  intros H. apply (f_equal (@length A)) in H. rewrite length_app in H.
  cbn [length] in H. lia.
Qed.

(** A [case] that validates and calls the client does not end as the
    [default] of the switch does. *)
Lemma validated_is_not_default (m : Method) (srv : Server) (rawArgs : json)
    (log : list HttpGet) (message : string) :
  validated (toolOf m) (validatorOf m) (call m) srv rawArgs log
  <> (Throw (createMcpError MethodNotFound message), log).
Proof.
  unfold validated. destruct (validatorOf m rawArgs); cbn [negb].
  - unfold bind.
    destruct (apiKeyMissing (nsApiService srv)) eqn:Hkey.
    + rewrite (ClientFacts.call_without_key m _ rawArgs log Hkey). discriminate.
    + rewrite (ClientFacts.call_with_key m _ rawArgs log Hkey).
      destruct (axiosInstance _ _); unfold ret; intros H; injection H as _ H;
        exact (append_one_longer _ _ H).
  - unfold throw, createMcpError. discriminate.
Qed.

Lemma toolNames_eq :
  toolNames
  = ["get_disruptions"; "get_travel_advice"; "get_departures"; "get_ovfiets";
     "get_station_info"; "get_current_time_in_rfc3339"; "get_arrivals"; "get_prices"].
Proof. reflexivity. Qed.

(** X7.  The catalog lists the tools the handler serves, each once: a name
    is in the list the [ListTools] handler returns exactly when the switch
    of the [CallTool] handler has a [case] for it, that is, when it does not
    end in the [default] that throws method-not-found for the name and
    sends nothing. *)
Theorem catalog_lists_the_dispatched_tools (srv : Server) (toolName : string)
    (rawArgs : json) (log : list HttpGet) :
  NoDup toolNames
  /\ (In toolName toolNames
      <-> switch srv toolName rawArgs log
          <> (Throw (createMcpError MethodNotFound ("Unknown tool: " +:+ toolName)), log)).
Proof.
  split; [ rewrite toolNames_eq; refine (bool_decide_unpack (NoDup _) _); vm_compute; exact I | ].
  rewrite toolNames_eq. split.
  - cbn [In]. intros H.
    repeat (destruct H as [ <- | H ]; [ | ]); try destruct H;
      first [ apply (validated_is_not_default GetDisruptions)
            | apply (validated_is_not_default GetTravelAdvice)
            | apply (validated_is_not_default GetDepartures)
            | apply (validated_is_not_default GetOVFiets)
            | apply (validated_is_not_default GetStationInfo)
            | apply (validated_is_not_default GetArrivals)
            | apply (validated_is_not_default GetPrices)
            | discriminate ].
  - intros H. unfold switch in H. cbn [In].
    repeat match type of H with
           | context [String.eqb toolName ?s] =>
               destruct (String.eqb_spec toolName s) as [ -> | _ ]; [ tauto | ]
           end.
    contradiction H. reflexivity.
Qed.

(** X8.  Arguments the validator of a tool rejects go no further: the
    handler answers with what the error formatter makes of the
    invalid-parameters error that names the tool, and nothing is sent
    upstream, with or without a credential. *)
Theorem invalid_arguments_never_reach_upstream (m : Method) (srv : Server)
    (arguments : option json) (log : list HttpGet) :
  validatorOf m (rawArgsOf {| name := toolOf m; arguments := arguments |}) = false ->
  switch srv (toolOf m) (rawArgsOf {| name := toolOf m; arguments := arguments |}) log
  = (Throw (createMcpError InvalidParams ("Invalid arguments for " +:+ toolOf m)), log)
  /\ callTool srv {| name := toolOf m; arguments := arguments |} log
     = (formatError (createMcpError InvalidParams ("Invalid arguments for " +:+ toolOf m)),
        log).
Proof.
  intros Hinvalid.
  assert (Hswitch :
    switch srv (toolOf m) (rawArgsOf {| name := toolOf m; arguments := arguments |}) log
    = (Throw (createMcpError InvalidParams ("Invalid arguments for " +:+ toolOf m)), log)).
  { rewrite switch_toolOf. unfold validated. rewrite Hinvalid. reflexivity. }
  split; [ exact Hswitch | ].
  unfold callTool, try_catch. cbn [name]. rewrite Hswitch. reflexivity.
Qed.

Lemma invalid_arguments_never_reach_upstream_witness :
  let srv := {| nsApiService := {| apiKey := Some "k-123";
                                   axiosInstance := fun _ => Ok (JArr []) |};
                clock := 0 |} in
  let arguments := Some (JObj [("fromStation", JStr "ASD")]) in
  validatorOf GetTravelAdvice
    (rawArgsOf {| name := toolOf GetTravelAdvice; arguments := arguments |}) = false
  /\ callTool srv {| name := "get_travel_advice"; arguments := arguments |} []
     = (Ok (ErrorEnvelope InvalidParams "Invalid arguments for get_travel_advice"), []).
Proof.
  intros srv arguments. split; [ reflexivity | ].
  exact (proj2 (invalid_arguments_never_reach_upstream GetTravelAdvice srv arguments []
                  eq_refl)).
Defined.

(** X9.  Arguments the validator accepts go to the method of the tool and
    to nothing else: the handler returns the success formatting of the data
    the method returns, or the error formatting of what it throws, and the
    requests sent are those of that one call: none without a credential,
    one with it. *)
Theorem valid_call_is_formatted (m : Method) (srv : Server)
    (arguments : option json) (log : list HttpGet) :
  let request := {| name := toolOf m; arguments := arguments |} in
  validatorOf m (rawArgsOf request) = true ->
  callTool srv request log
  = match call m (nsApiService srv) (rawArgsOf request) log with
    | (Ok data, log') => (Ok (formatSuccess data), log')
    | (Throw error, log') => (formatError error, log')
    end
  /\ snd (callTool srv request log)
     = (if apiKeyMissing (nsApiService srv) then log
        else log ++ [requestOf (nsApiService srv) m (rawArgsOf request)])%list.
Proof.
  intros request Hvalid.
  assert (Hcall :
    callTool srv request log
    = match call m (nsApiService srv) (rawArgsOf request) log with
      | (Ok data, log') => (Ok (formatSuccess data), log')
      | (Throw error, log') => (formatError error, log')
      end).
  { unfold callTool, try_catch. change (name request) with (toolOf m).
    rewrite switch_toolOf. unfold validated. rewrite Hvalid. cbn [negb]. unfold bind.
    destruct (call m (nsApiService srv) (rawArgsOf request) log) as [[data | error] log'];
      reflexivity. }
  split; [ exact Hcall | ].
  rewrite Hcall.
  destruct (apiKeyMissing (nsApiService srv)) eqn:Hkey.
  - now rewrite (ClientFacts.call_without_key m _ _ log Hkey).
  - rewrite (ClientFacts.call_with_key m _ _ log Hkey).
    destruct (axiosInstance _ _); reflexivity.
Qed.

Lemma valid_call_is_formatted_witness :
  let upstream := JArr [JObj [("id", JStr "6029432"); ("isActive", JBool true)]] in
  let srv := {| nsApiService := {| apiKey := Some "k-123";
                                   axiosInstance := fun _ => Ok upstream |};
                clock := 0 |} in
  let request := {| name := "get_disruptions";
                    arguments := Some (JObj [("isActive", JBool true)]) |} in
  validatorOf GetDisruptions (rawArgsOf request) = true
  /\ callTool srv request []
     = (Ok (formatSuccess upstream),
        [ {| url := "https://gateway.apiportal.ns.nl/disruptions/v3";
             headers := [("Ocp-Apim-Subscription-Key", Some "k-123")];
             params := [("isActive", JBool true)] |} ]).
Proof.
  intros upstream srv request. split; [ reflexivity | ].
  exact (proj1 (valid_call_is_formatted GetDisruptions srv
                  (Some (JObj [("isActive", JBool true)])) [] eq_refl)).
Defined.

(** What a [case] that validates and calls the client sends. *)
Lemma validated_sends (toolName : string) (isValid : json -> bool) (m : Method)
    (srv : Server) (rawArgs : json) (log : list HttpGet) :
  exists sent,
    snd (validated toolName isValid (call m) srv rawArgs log) = (log ++ sent)%list
    /\ length sent <= 1
    /\ (apiKeyMissing (nsApiService srv) = true -> sent = []).
Proof.
  unfold validated. destruct (isValid rawArgs); cbn [negb].
  - unfold bind. destruct (apiKeyMissing (nsApiService srv)) eqn:Hkey.
    + rewrite (ClientFacts.call_without_key m _ rawArgs log Hkey).
      exists []. rewrite app_nil_r. auto.
    + rewrite (ClientFacts.call_with_key m _ rawArgs log Hkey).
      eexists [_]. destruct (axiosInstance _ _); cbn [ret snd length];
        (split; [ reflexivity | split; [ lia | discriminate ] ]).
  - exists []. rewrite app_nil_r. auto.
Qed.

(** X10.  A tool call sends at most one request upstream, after those
    already sent, and none when no credential is configured: this holds
    for every request, whatever the tool name and the arguments, and
    whatever the upstream answers. *)
Theorem at_most_one_request_per_call (srv : Server) (request : CallToolRequest)
    (log : list HttpGet) :
  exists sent,
    snd (callTool srv request log) = (log ++ sent)%list
    /\ length sent <= 1
    /\ (apiKeyMissing (nsApiService srv) = true -> sent = []).
Proof.
  assert (Hcatch : forall body : Net Envelope,
            snd (try_catch body (fun error => lift (formatError error)) log)
            = snd (body log)).
  { intros body. unfold try_catch, lift. now destruct (body log) as [[] ?]. }
  unfold callTool. rewrite Hcatch. unfold switch.
  change getDisruptions with (call GetDisruptions).
  change getTravelAdvice with (call GetTravelAdvice).
  change getDepartures with (call GetDepartures).
  change getOVFiets with (call GetOVFiets).
  change getStationInfo with (call GetStationInfo).
  change getArrivals with (call GetArrivals).
  change getPrices with (call GetPrices).
  repeat match goal with
         | |- context [String.eqb (name request) ?s] =>
             destruct (String.eqb (name request) s); [ apply validated_sends | ]
         end.
  destruct (String.eqb (name request) "get_current_time_in_rfc3339").
  - exists []. rewrite app_nil_r. auto.
  - repeat match goal with
           | |- context [String.eqb (name request) ?s] =>
               destruct (String.eqb (name request) s); [ apply validated_sends | ]
           end.
    exists []. rewrite app_nil_r. auto.
Qed.

End ToolFacts.

(* ===================================================================== *)
(** * The session map over a request *)
(* ===================================================================== *)

Module SessionFacts.
Import NSHttpServer Sessions.

(** ** The callbacks *)

Lemma runCallback_serial (fired : list Callback) (transport : Transport)
    (ts : gmap string Transport) :
  serial (fst (fold_left runCallback fired (transport, ts))) = serial transport.
Proof.
  revert transport ts. induction fired as [ | cb fired IH ]; intros transport ts;
    [ reflexivity | ].
  cbn [fold_left]. destruct cb as [ sid | sid | ]; cbn [runCallback].
  - now rewrite IH.
  - now rewrite IH.
  - destruct (nonEmpty (sessionId transport)); now rewrite IH.
Qed.

(** A session enters the map by [onsessioninitialized] only. *)
Lemma runCallback_enters (fired : list Callback) (transport : Transport)
    (ts : gmap string Transport) (sid : string) (t : Transport) :
  snd (fold_left runCallback fired (transport, ts)) !! sid = Some t ->
  ts !! sid = Some t \/ In (OnSessionInitialized sid) fired.
Proof.
  revert transport ts. induction fired as [ | cb fired IH ]; intros transport ts H;
    [ now left | ].
  cbn [fold_left] in H. cbn [In].
  destruct cb as [ s | s | ]; cbn [runCallback] in H.
  - apply IH in H as [ H | H ]; [ | tauto ].
    destruct (decide (s = sid)) as [ -> | Hne ]; [ tauto | ].
    rewrite lookup_insert_ne in H by exact Hne. tauto.
  - apply IH in H as [ H | H ]; [ | tauto ].
    apply lookup_delete_Some in H as [_ H]. tauto.
  - destruct (nonEmpty (sessionId transport)) as [ s | ].
    + apply IH in H as [ H | H ]; [ | tauto ].
      apply lookup_delete_Some in H as [_ H]. tauto.
    + apply IH in H as [ H | H ]; tauto.
Qed.

(** A session leaves the map by [onsessionclosed] or [onclose] only. *)
Lemma runCallback_leaves (fired : list Callback) (transport : Transport)
    (ts : gmap string Transport) (sid : string) :
  is_Some (ts !! sid) ->
  snd (fold_left runCallback fired (transport, ts)) !! sid = None ->
  In (OnSessionClosed sid) fired \/ In OnClose fired.
Proof.
  revert transport ts. induction fired as [ | cb fired IH ];
    intros transport ts Hin Hout.
  - cbn [fold_left snd] in Hout. rewrite Hout in Hin. now destruct Hin.
  - cbn [fold_left] in Hout. cbn [In].
    destruct cb as [ s | s | ]; cbn [runCallback] in Hout.
    + apply IH in Hout; [ tauto | ].
      destruct (decide (s = sid)) as [ -> | Hne ].
      * rewrite lookup_insert_eq. eauto.
      * now rewrite lookup_insert_ne.
    + destruct (decide (s = sid)) as [ -> | Hne ]; [ tauto | ].
      apply IH in Hout; [ tauto | ]. now rewrite lookup_delete_ne.
    + tauto.
Qed.

(** The last callback decides. *)
Lemma runCallback_last (earlier : list Callback) (cb : Callback)
    (transport : Transport) (ts : gmap string Transport) :
  fold_left runCallback (earlier ++ [cb])%list (transport, ts)
  = runCallback (fold_left runCallback earlier (transport, ts)) cb.
Proof. now rewrite fold_left_app. Qed.

Lemma known_some (st : State) (sid : string) :
  sid <> EmptyString -> known st (Some sid) = transports st !! sid.
Proof.
  intros Hne. unfold known, nonEmpty.
  destruct (String.eqb_spec sid EmptyString); [ contradiction | reflexivity ].
Qed.

Section Serving.

Variable isInitializeRequest : json -> bool.
Variable connect : Transport -> Result unit.
Variable handleRequest : Transport -> HttpRequest -> list Callback * Outcome.

(** The state and the response of a request, by the transport it reaches. *)
Lemma mcp_serving (st : State) (req : HttpRequest) :
  mcp isInitializeRequest connect handleRequest st req
  = match serving isInitializeRequest connect st req with
    | Some transport =>
        let '(fired, outcome) := handleRequest transport req in
        ({| transports := snd (fold_left runCallback fired (transport, transports st));
            constructed :=
              (if constructsTransport isInitializeRequest st req
               then S (constructed st) else constructed st) |},
         match outcome with
         | Responded r | ThrewAfterHeaders r => r
         | ThrewBeforeHeaders => {| status := 500; content := errorBody (method req) |}
         end)
    | None =>
        if constructsTransport isInitializeRequest st req
        then ({| transports := transports st; constructed := S (constructed st) |},
              {| status := 500; content := errorBody POST |})
        else (st, {| status := 400;
                     content := match method req with
                                | POST => JsonBody (JObj [("error", JStr invalidSession)])
                                | GET | DELETE => TextBody invalidSession
                                end |})
    end.
Proof.
  unfold mcp, serving, constructsTransport, postMcp, getMcp, deleteMcp.
  destruct (method req).
  - destruct (routePost isInitializeRequest st req) as [ transport | | ].
    + unfold delegate. destruct (handleRequest transport req) as [fired outcome].
      destruct (fold_left runCallback fired (transport, transports st)) as [t ts].
      destruct outcome; reflexivity.
    + fold (fresh st). destruct (connect (fresh st)); [ | reflexivity ].
      unfold delegate. cbn [transports constructed].
      destruct (handleRequest (fresh st) req) as [fired outcome].
      destruct (fold_left runCallback fired (fresh st, transports st)) as [t ts].
      destruct outcome; reflexivity.
    + reflexivity.
  - destruct (known st (sessionHeader req)) as [ transport | ]; [ | reflexivity ].
    unfold delegate. destruct (handleRequest transport req) as [fired outcome].
    destruct (fold_left runCallback fired (transport, transports st)) as [t ts].
    destruct outcome; reflexivity.
  - destruct (known st (sessionHeader req)) as [ transport | ]; [ | reflexivity ].
    unfold delegate. destruct (handleRequest transport req) as [fired outcome].
    destruct (fold_left runCallback fired (transport, transports st)) as [t ts].
    destruct outcome; reflexivity.
Qed.

Lemma mcp_transports (st : State) (req : HttpRequest) :
  transports (fst (mcp isInitializeRequest connect handleRequest st req))
  = match serving isInitializeRequest connect st req with
    | Some transport =>
        snd (fold_left runCallback (fst (handleRequest transport req))
               (transport, transports st))
    | None => transports st
    end.
Proof.
  rewrite mcp_serving.
  destruct (serving isInitializeRequest connect st req) as [ transport | ].
  - destruct (handleRequest transport req) as [fired outcome]. reflexivity.
  - destruct (constructsTransport isInitializeRequest st req); reflexivity.
Qed.

Lemma serving_known (st : State) (req : HttpRequest) (transport : Transport) :
  known st (sessionHeader req) = Some transport ->
  serving isInitializeRequest connect st req = Some transport
  /\ constructsTransport isInitializeRequest st req = false.
Proof.
  intros Hknown. unfold serving, constructsTransport, routePost. rewrite Hknown.
  destruct (method req); split; reflexivity.
Qed.

Lemma mcp_constructed (st : State) (req : HttpRequest) :
  constructed (fst (mcp isInitializeRequest connect handleRequest st req))
  = (if constructsTransport isInitializeRequest st req then 1 else 0) + constructed st.
Proof.
  rewrite mcp_serving.
  destruct (serving isInitializeRequest connect st req) as [ transport | ].
  - destruct (handleRequest transport req) as [ran outcome]. cbn [fst constructed].
    now destruct (constructsTransport isInitializeRequest st req).
  - now destruct (constructsTransport isInitializeRequest st req).
Qed.

Lemma mcp_enters (st : State) (req : HttpRequest) (sid : string) (t : Transport) :
  transports (fst (mcp isInitializeRequest connect handleRequest st req)) !! sid = Some t ->
  transports st !! sid = Some t
  \/ In (OnSessionInitialized sid) (fired isInitializeRequest connect handleRequest st req).
Proof.
  rewrite mcp_transports. unfold fired.
  destruct (serving isInitializeRequest connect st req) as [ transport | ].
  - apply runCallback_enters.
  - now left.
Qed.

End Serving.

Section Routes.

Variable isInitializeRequest : json -> bool.
Variable connect : Transport -> Result unit.
Variable handleRequest : Transport -> HttpRequest -> list Callback * Outcome.

(** X11.  A request that names a stored session goes to the transport stored
    for it, on POST, GET and DELETE alike and whatever its body: no
    transport is constructed, [isInitializeRequest] and [connect] play no
    part, and the response is the one the transport has written, unless the
    transport throws before the headers are out; then it is a 500 with the
    message of the route. *)
Theorem known_session_is_delegated (st : State) (req : HttpRequest)
    (transport : Transport) :
  known st (sessionHeader req) = Some transport ->
  constructed (fst (mcp isInitializeRequest connect handleRequest st req))
  = constructed st
  /\ (forall isInitializeRequest' connect',
         mcp isInitializeRequest' connect' handleRequest st req
         = mcp isInitializeRequest connect handleRequest st req)
  /\ match snd (handleRequest transport req) with
     | Responded r | ThrewAfterHeaders r =>
         snd (mcp isInitializeRequest connect handleRequest st req) = r
     | ThrewBeforeHeaders =>
         snd (mcp isInitializeRequest connect handleRequest st req)
         = {| status := 500; content := errorBody (method req) |}
     end.
Proof.
  intros Hknown.
  assert (Hmcp : forall i c,
    mcp i c handleRequest st req
    = let '(fired, outcome) := handleRequest transport req in
      ({| transports := snd (fold_left runCallback fired (transport, transports st));
          constructed := constructed st |},
       match outcome with
       | Responded r | ThrewAfterHeaders r => r
       | ThrewBeforeHeaders => {| status := 500; content := errorBody (method req) |}
       end)).
  { intros i c. rewrite mcp_serving.
    destruct (serving_known i c st req transport Hknown) as [-> ->]. reflexivity. }
  split; [ | split ].
  - rewrite Hmcp. now destruct (handleRequest transport req).
  - intros i c. now rewrite !Hmcp.
  - rewrite Hmcp. destruct (handleRequest transport req) as [fired outcome].
    destruct outcome; reflexivity.
Qed.

(** X12.  The session map changes by the callbacks and by nothing else:
    over any request on /mcp, a session is in the map afterwards only if
    it was there before, with the same transport, or [onsessioninitialized]
    ran for it; a session that was there is gone only if [onsessionclosed]
    ran for it or [onclose] ran; and when no callback runs the map is as it
    was. *)
Theorem session_map_changes_by_callbacks (st : State) (req : HttpRequest)
    (sid : string) :
  let st' := fst (mcp isInitializeRequest connect handleRequest st req) in
  let ran := fired isInitializeRequest connect handleRequest st req in
  (forall t, transports st' !! sid = Some t ->
             transports st !! sid = Some t \/ In (OnSessionInitialized sid) ran)
  /\ (is_Some (transports st !! sid) -> transports st' !! sid = None ->
      In (OnSessionClosed sid) ran \/ In OnClose ran)
  /\ (ran = [] -> transports st' = transports st).
Proof.
  intros st' ran. subst st' ran. rewrite mcp_transports. unfold fired.
  destruct (serving isInitializeRequest connect st req) as [ transport | ].
  - split; [ | split ].
    + intros t. apply runCallback_enters.
    + apply runCallback_leaves.
    + now intros ->.
  - split; [ | split ].
    + intros t H. now left.
    + intros [t Ht] H. congruence.
    + reflexivity.
Qed.

(** X13.  A session that was initialized is found again: when the handling
    of an initialization request ends with [onsessioninitialized] for a
    non-empty identifier, the map holds the transport constructed for that
    request under the identifier, and in the state this leaves every
    request that carries the identifier, POST, GET or DELETE, reaches that
    transport. *)
Theorem initialized_session_is_reused (st : State) (req : HttpRequest)
    (sid : string) (earlier : list Callback) (outcome : Outcome) :
  method req = POST ->
  nonEmpty (sessionHeader req) = None ->
  isInitializeRequest (body req) = true ->
  connect (fresh st) = Ok tt ->
  handleRequest (fresh st) req = ((earlier ++ [OnSessionInitialized sid])%list, outcome) ->
  sid <> EmptyString ->
  let st' := fst (mcp isInitializeRequest connect handleRequest st req) in
  let transport := {| serial := constructed st; sessionId := Some sid |} in
  transports st' !! sid = Some transport
  /\ constructed st' = S (constructed st)
  /\ forall req',
       sessionHeader req' = Some sid ->
       serving isInitializeRequest connect st' req' = Some transport
       /\ constructsTransport isInitializeRequest st' req' = false.
Proof.
  intros Hpost Hnone Hinit Hconnect Hhandle Hsid st' transport.
  assert (Hserving : serving isInitializeRequest connect st req = Some (fresh st)).
  { unfold serving, routePost. rewrite Hpost, (TransportFacts.known_nonEmpty st _ Hnone),
      Hnone, Hinit, Hconnect. reflexivity. }
  assert (Hconstructs : constructsTransport isInitializeRequest st req = true).
  { unfold constructsTransport, routePost.
    rewrite Hpost, (TransportFacts.known_nonEmpty st _ Hnone), Hnone, Hinit. reflexivity. }
  assert (Hstored : transports st' !! sid = Some transport).
  { subst st'. rewrite mcp_transports, Hserving, Hhandle. cbn [fst].
    rewrite runCallback_last.
    pose proof (runCallback_serial earlier (fresh st) (transports st)) as Hserial.
    destruct (fold_left runCallback earlier (fresh st, transports st)) as [t ts].
    cbn [fst] in Hserial. cbn [runCallback snd]. rewrite lookup_insert_eq.
    subst transport. now rewrite Hserial. }
  split; [ exact Hstored | ]. split.
  - subst st'. rewrite mcp_serving, Hserving, Hhandle, Hconstructs. reflexivity.
  - intros req' Hheader. apply serving_known.
    now rewrite Hheader, known_some.
Qed.

(** X14.  A session that was closed is refused: when the handling of a
    request ends with [onsessionclosed] for an identifier, in the state
    this leaves every request that carries the identifier is answered 400
    and changes nothing, also a POST whose body is an initialization
    message; the state being unchanged, so is a repeat. *)
Theorem closed_session_is_refused (st : State) (req : HttpRequest)
    (transport : Transport) (sid : string) (earlier : list Callback)
    (outcome : Outcome) (req' : HttpRequest) :
  serving isInitializeRequest connect st req = Some transport ->
  handleRequest transport req = ((earlier ++ [OnSessionClosed sid])%list, outcome) ->
  sid <> EmptyString ->
  sessionHeader req' = Some sid ->
  let st' := fst (mcp isInitializeRequest connect handleRequest st req) in
  transports st' !! sid = None
  /\ exists response,
       mcp isInitializeRequest connect handleRequest st' req' = (st', response)
       /\ status response = 400%Z.
Proof.
  intros Hserving Hhandle Hsid Hheader st'.
  assert (Hgone : transports st' !! sid = None).
  { subst st'. rewrite mcp_transports, Hserving, Hhandle. cbn [fst].
    rewrite runCallback_last.
    destruct (fold_left runCallback earlier (transport, transports st)) as [t ts].
    cbn [runCallback snd]. apply lookup_delete_eq. }
  split; [ exact Hgone | ].
  assert (Hknown : known st' (sessionHeader req') = None)
    by now rewrite Hheader, known_some.
  assert (Hnonempty : nonEmpty (sessionHeader req') = Some sid).
  { rewrite Hheader. unfold nonEmpty.
    destruct (String.eqb_spec sid EmptyString); [ contradiction | reflexivity ]. }
  rewrite mcp_serving.
  assert (Hnot : serving isInitializeRequest connect st' req' = None
                 /\ constructsTransport isInitializeRequest st' req' = false).
  { unfold serving, constructsTransport, routePost. rewrite Hknown, Hnonempty.
    destruct (method req'); split; reflexivity. }
  destruct Hnot as [-> ->]. eauto.
Qed.

(** X15.  When [this.server.connect] throws on the initialization path, the
    request is answered 500 with [Internal server error]; the transport
    that was constructed is in no session, its [handleRequest] is not
    called, and the session map is as it was. *)
Theorem connect_failure_answers_500 (st : State) (req : HttpRequest) (e : Thrown) :
  method req = POST ->
  nonEmpty (sessionHeader req) = None ->
  isInitializeRequest (body req) = true ->
  connect (fresh st) = Throw e ->
  (forall handleRequest',
      mcp isInitializeRequest connect handleRequest' st req
      = ({| transports := transports st; constructed := S (constructed st) |},
         {| status := 500;
            content := JsonBody (JObj [("error", JStr "Internal server error")]) |}))
  /\ serving isInitializeRequest connect st req = None
  /\ fired isInitializeRequest connect handleRequest st req = [].
Proof.
  intros Hpost Hnone Hinit Hconnect.
  assert (Hserving : serving isInitializeRequest connect st req = None).
  { unfold serving, routePost. rewrite Hpost, (TransportFacts.known_nonEmpty st _ Hnone),
      Hnone, Hinit, Hconnect. reflexivity. }
  split; [ | split ].
  - intros h. rewrite mcp_serving, Hserving.
    unfold constructsTransport, routePost.
    rewrite Hpost, (TransportFacts.known_nonEmpty st _ Hnone), Hnone, Hinit. reflexivity.
  - exact Hserving.
  - unfold fired. now rewrite Hserving.
Qed.

(** X16.  A POST that carries a session identifier the map does not hold is
    answered 400 whatever its body, an initialization message included:
    nothing is constructed, [connect] is not called and the state is as it
    was. *)
Theorem unknown_session_cannot_initialize (st : State) (req : HttpRequest)
    (sid : string) :
  method req = POST ->
  sessionHeader req = Some sid ->
  sid <> EmptyString ->
  transports st !! sid = None ->
  forall isInitializeRequest' connect',
    mcp isInitializeRequest' connect' handleRequest st req
    = (st, {| status := 400;
              content := JsonBody (JObj [("error", JStr "Invalid or missing session ID")]) |}).
Proof.
  intros Hpost Hheader Hsid Hmissing i c.
  assert (Hknown : known st (sessionHeader req) = None)
    by now rewrite Hheader, known_some.
  assert (Hnonempty : nonEmpty (sessionHeader req) = Some sid).
  { rewrite Hheader. unfold nonEmpty.
    destruct (String.eqb_spec sid EmptyString); [ contradiction | reflexivity ]. }
  unfold mcp, postMcp, routePost. now rewrite Hpost, Hknown, Hnonempty.
Qed.

(** X17.  Over any sequence of requests on /mcp, a session is in the map
    at the end only if it was there at the beginning or
    [onsessioninitialized] ran for it at some request of the sequence, and
    the number of transports constructed grows by the number of requests
    that took the initialization path; from the start of the server, every
    session in the map has been initialized. *)
Theorem sessions_come_from_initialization (st : State) (reqs : list HttpRequest)
    (sid : string) (t : Transport) :
  (transports (run isInitializeRequest connect handleRequest st reqs) !! sid = Some t ->
   transports st !! sid = Some t
   \/ initialized isInitializeRequest connect handleRequest st reqs sid)
  /\ (transports (run isInitializeRequest connect handleRequest start reqs) !! sid = Some t ->
      initialized isInitializeRequest connect handleRequest start reqs sid)
  /\ constructed (run isInitializeRequest connect handleRequest st reqs)
     = initializations isInitializeRequest connect handleRequest st reqs + constructed st.
Proof.
  assert (Henters : forall st,
    transports (run isInitializeRequest connect handleRequest st reqs) !! sid = Some t ->
    transports st !! sid = Some t
    \/ initialized isInitializeRequest connect handleRequest st reqs sid).
  { induction reqs as [ | req rest IH ]; intros st0 H; [ now left | ].
    cbn [run initialized] in *. apply IH in H as [ H | H ]; [ | tauto ].
    apply mcp_enters in H. tauto. }
  split; [ apply Henters | ]. split.
  - intros H. apply Henters in H as [ H | H ]; [ | exact H ].
    cbn [start transports] in H. now rewrite lookup_empty in H.
  - clear Henters. revert st. induction reqs as [ | req rest IH ]; intros st0;
      [ reflexivity | ].
    cbn [run initializations]. rewrite IH, mcp_constructed. lia.
Qed.

End Routes.

(** ** An SDK to run the statements on *)

Lemma known_session_is_delegated_witness :
  let handleRequest :=
    fun (_ : Transport) (_ : HttpRequest) =>
      ([] : list Callback, ThrewBeforeHeaders) in
  let stored := {| serial := 0; sessionId := Some "a1" |} in
  let st := {| transports := {[ "a1" := stored ]}; constructed := 1 |} in
  let req := {| method := DELETE; sessionHeader := Some "a1"; body := JNull |} in
  known st (sessionHeader req) = Some stored
  /\ snd (mcp (fun _ => true) (fun _ => Throw ThrownUndefined) handleRequest st req)
     = {| status := 500; content := TextBody "Error processing session termination" |}.
Proof.
  intros handleRequest stored st req.
  assert (Hknown : known st (sessionHeader req) = Some stored) by reflexivity.
  split; [ exact Hknown | ].
  exact (proj2 (proj2 (known_session_is_delegated (fun _ => true)
                         (fun _ => Throw ThrownUndefined) handleRequest st req stored
                         Hknown))).
Defined.

Lemma initialized_session_is_reused_witness :
  let isInitializeRequest := fun body => Types.present body "method" in
  let connect := fun _ : Transport => Ok tt in
  let handleRequest :=
    fun (_ : Transport) (_ : HttpRequest) =>
      ([OnSessionInitialized "c3"],
       Responded {| status := 200; content := TextBody "event: message" |}) in
  let st := {| transports := {[ "a1" := {| serial := 0; sessionId := Some "a1" |} ]};
               constructed := 1 |} in
  let req := {| method := POST; sessionHeader := None;
                body := JObj [("jsonrpc", JStr "2.0"); ("method", JStr "initialize")] |} in
  let st' := fst (mcp isInitializeRequest connect handleRequest st req) in
  transports st' !! "c3" = Some {| serial := 1; sessionId := Some "c3" |}
  /\ constructed st' = 2.
Proof.
  intros isInitializeRequest connect handleRequest st req st'.
  pose proof (initialized_session_is_reused isInitializeRequest connect handleRequest
                st req "c3" [] _ eq_refl eq_refl eq_refl eq_refl eq_refl
                ltac:(discriminate)) as H.
  exact (conj (proj1 H) (proj1 (proj2 H))).
Defined.

Lemma closed_session_is_refused_witness :
  let isInitializeRequest := fun body => Types.present body "method" in
  let connect := fun _ : Transport => Ok tt in
  let handleRequest :=
    fun (_ : Transport) (_ : HttpRequest) =>
      ([OnSessionClosed "a1"],
       Responded {| status := 200; content := TextBody "closed" |}) in
  let stored := {| serial := 0; sessionId := Some "a1" |} in
  let st := {| transports := {[ "a1" := stored ]}; constructed := 1 |} in
  let req := {| method := DELETE; sessionHeader := Some "a1"; body := JNull |} in
  let req' := {| method := POST; sessionHeader := Some "a1";
                 body := JObj [("jsonrpc", JStr "2.0"); ("method", JStr "initialize")] |} in
  let st' := fst (mcp isInitializeRequest connect handleRequest st req) in
  serving isInitializeRequest connect st req = Some stored
  /\ transports st' !! "a1" = None
  /\ exists response,
       mcp isInitializeRequest connect handleRequest st' req' = (st', response)
       /\ status response = 400%Z.
Proof.
  intros isInitializeRequest connect handleRequest stored st req req' st'.
  assert (Hserving : serving isInitializeRequest connect st req = Some stored)
    by reflexivity.
  split; [ exact Hserving | ].
  exact (closed_session_is_refused isInitializeRequest connect handleRequest st req
           stored "a1" [] _ req' Hserving eq_refl ltac:(discriminate) eq_refl).
Defined.

Lemma connect_failure_answers_500_witness :
  let isInitializeRequest := fun body => Types.present body "method" in
  let connect := fun _ : Transport => Throw (ThrownError "Already connected") in
  let handleRequest :=
    fun (_ : Transport) (_ : HttpRequest) =>
      ([OnSessionInitialized "c3"], Responded {| status := 200; content := TextBody "ok" |}) in
  let st := {| transports := ∅; constructed := 0 |} in
  let req := {| method := POST; sessionHeader := Some EmptyString;
                body := JObj [("method", JStr "initialize")] |} in
  mcp isInitializeRequest connect handleRequest st req
  = ({| transports := ∅; constructed := 1 |},
     {| status := 500;
        content := JsonBody (JObj [("error", JStr "Internal server error")]) |}).
Proof.
  intros isInitializeRequest connect handleRequest st req.
  exact (proj1 (connect_failure_answers_500 isInitializeRequest connect handleRequest
                  st req _ eq_refl eq_refl eq_refl eq_refl) handleRequest).
Defined.

Lemma unknown_session_cannot_initialize_witness :
  let isInitializeRequest := fun body => Types.present body "method" in
  let connect := fun _ : Transport => Ok tt in
  let handleRequest :=
    fun (_ : Transport) (_ : HttpRequest) =>
      ([OnSessionInitialized "c3"], Responded {| status := 200; content := TextBody "ok" |}) in
  let st := {| transports := {[ "a1" := {| serial := 0; sessionId := Some "a1" |} ]};
               constructed := 1 |} in
  let req := {| method := POST; sessionHeader := Some "b2";
                body := JObj [("jsonrpc", JStr "2.0"); ("method", JStr "initialize")] |} in
  isInitializeRequest (body req) = true
  /\ mcp isInitializeRequest connect handleRequest st req
     = (st, {| status := 400;
               content := JsonBody (JObj [("error", JStr "Invalid or missing session ID")]) |}).
Proof.
  intros isInitializeRequest connect handleRequest st req.
  split; [ reflexivity | ].
  exact (unknown_session_cannot_initialize handleRequest st req "b2" eq_refl eq_refl
           ltac:(discriminate) eq_refl isInitializeRequest connect).
Defined.

End SessionFacts.

(* ===================================================================== *)
(** * The port *)
(* ===================================================================== *)

Module PortFacts.
Import Express JsonFacts.
Local Arguments String.append !s1 s2 : simpl nomatch.

Lemma digit_is_not_white_space (c : ascii) :
  is_digit c = true ->
  is_white_space c = false /\ Ascii.eqb c "+" = false /\ Ascii.eqb c "-" = false.
Proof.
  intros H. apply digit_cases in H. cbn [In] in H.
  repeat (destruct H as [ <- | H ]; [ repeat split | ]). destruct H.
Qed.

Lemma trim_start_append (blank s : string) :
  all_white_space blank = true -> trim_start (blank +:+ s) = trim_start s.
Proof.
  induction blank as [ | c blank IH ]; [ reflexivity | ].
  cbn [all_white_space String.append trim_start]. intros H.
  apply andb_true_iff in H as [-> H]. now apply IH.
Qed.

(** The decimal digits of a number start with a digit. *)
Lemma digits_of_N_head (n : N) :
  exists c r, digits_of_N n = String c r /\ is_digit c = true.
Proof.
  pose proof (digits_of_N_not_empty n) as Hne.
  pose proof (all_digits_string_of_uint (N.to_uint n)) as Hall.
  fold (digits_of_N n) in Hall.
  destruct (digits_of_N n) as [ | c r ]; [ discriminate Hne | ].
  cbn [all_digits] in Hall. apply andb_true_iff in Hall as [Hc _]. eauto.
Qed.

Lemma parseInt_digits (n : N) (rest : string) :
  JSON.ends_digits rest ->
  parseInt (digits_of_N n +:+ rest) = Some (Z.of_N n).
Proof.
  intros Hrest. unfold parseInt.
  destruct (digits_of_N_head n) as (c & r & Hhead & Hc).
  destruct (digit_is_not_white_space c Hc) as (Hws & Hplus & Hminus).
  assert (Htrim : trim_start (digits_of_N n +:+ rest) = digits_of_N n +:+ rest).
  { rewrite Hhead. cbn [String.append trim_start]. now rewrite Hws. }
  rewrite Htrim.
  assert (Hsign : sign_of (digits_of_N n +:+ rest) = 1%Z
                  /\ without_sign (digits_of_N n +:+ rest) = digits_of_N n +:+ rest).
  { rewrite Hhead. cbn [String.append sign_of without_sign]. now rewrite Hplus, Hminus. }
  destruct Hsign as [-> ->].
  rewrite read_digits_append;
    [ | apply all_digits_string_of_uint | exact Hrest ].
  rewrite digits_of_N_not_empty, N_of_digits_of_N. f_equal. lia.
Qed.

Lemma parseInt_signed (sign : ascii) (n : N) (rest : string) :
  is_white_space sign = false ->
  Ascii.eqb sign "+" || Ascii.eqb sign "-" = true ->
  JSON.ends_digits rest ->
  parseInt (String sign (digits_of_N n +:+ rest))
  = Some ((if Ascii.eqb sign "-" then -1 else 1) * Z.of_N n)%Z.
Proof.
  intros Hws Hsign Hrest. unfold parseInt. cbn [trim_start]. rewrite Hws.
  cbn [sign_of without_sign]. rewrite Hsign.
  rewrite read_digits_append;
    [ | apply all_digits_string_of_uint | exact Hrest ].
  now rewrite digits_of_N_not_empty, N_of_digits_of_N.
Qed.

Lemma parseInt_trim (blank s : string) :
  all_white_space blank = true -> parseInt (blank +:+ s) = parseInt s.
Proof. intros H. unfold parseInt. now rewrite (trim_start_append blank s H). Qed.

Lemma read_digits_none (s : string) :
  JSON.ends_digits s -> JSON.read_digits s = (EmptyString, s).
Proof. destruct s as [ | c r ]; [ reflexivity | ]. cbn. now intros ->. Qed.

Lemma portText_not_empty (s : string) : s <> EmptyString -> portText (Some s) = s.
Proof.
  intros H. unfold portText.
  destruct (String.eqb_spec s EmptyString); [ contradiction | reflexivity ].
Qed.

Lemma append_not_empty (a b c : string) :
  JSON.is_empty b = false -> a +:+ b +:+ c <> EmptyString.
Proof.
  intros Hb H. apply (f_equal String.length) in H.
  rewrite !length_append in H. destruct b; [ discriminate Hb | ]. cbn in H. lia.
Qed.

(** X18.  The port is the number that the leading decimal digits of [PORT]
    write: for a number up to 2^53, written in decimal after any white
    space and an optional sign and followed by anything that is not a
    digit, the port is that number, negated after a minus sign. *)
Theorem port_reads_leading_digits (blank rest : string) (n : N) :
  (n <= 2 ^ 53)%N ->
  all_white_space blank = true ->
  JSON.ends_digits rest ->
  port (Some (blank +:+ digits_of_N n +:+ rest)) = Some (Z.of_N n)
  /\ port (Some (blank +:+ "+" +:+ digits_of_N n +:+ rest)) = Some (Z.of_N n)
  /\ port (Some (blank +:+ "-" +:+ digits_of_N n +:+ rest)) = Some (- Z.of_N n)%Z.
Proof.
  intros _ Hblank Hrest. unfold port. split; [ | split ].
  - rewrite portText_not_empty by (apply append_not_empty, digits_of_N_not_empty).
    rewrite parseInt_trim by exact Hblank. now apply parseInt_digits.
  - rewrite portText_not_empty
      by (rewrite <- append_assoc; apply append_not_empty, digits_of_N_not_empty).
    rewrite parseInt_trim by exact Hblank.
    change ("+" +:+ digits_of_N n +:+ rest) with (String "+" (digits_of_N n +:+ rest)).
    rewrite parseInt_signed by (reflexivity || exact Hrest).
    cbn [Ascii.eqb Bool.eqb]. f_equal; lia.
  - rewrite portText_not_empty
      by (rewrite <- append_assoc; apply append_not_empty, digits_of_N_not_empty).
    rewrite parseInt_trim by exact Hblank.
    change ("-" +:+ digits_of_N n +:+ rest) with (String "-" (digits_of_N n +:+ rest)).
    rewrite parseInt_signed by (reflexivity || exact Hrest).
    cbn [Ascii.eqb Bool.eqb]. f_equal; lia.
Qed.

Lemma port_reads_leading_digits_witness :
  (3000 <= 2 ^ 53)%N
  /\ all_white_space " " = true
  /\ JSON.ends_digits "/tcp"
  /\ port (Some " 3000/tcp") = Some 3000%Z.
Proof.
  assert (H1 : (3000 <= 2 ^ 53)%N) by (vm_compute; discriminate).
  assert (H2 : all_white_space " " = true) by reflexivity.
  assert (H3 : JSON.ends_digits "/tcp") by reflexivity.
  split; [ exact H1 | ]. split; [ exact H2 | ]. split; [ exact H3 | ].
  exact (proj1 (port_reads_leading_digits " " "/tcp" 3000 H1 H2 H3)).
Defined.

(** X19.  The default port is for an unset or empty [PORT] only: any other
    value in which no digit follows the leading white space and sign gives
    [NaN], not 8081. *)
Theorem port_is_not_a_number (s : string) :
  s <> EmptyString ->
  JSON.ends_digits (without_sign (trim_start s)) ->
  port (Some s) = None
  /\ port None = Some 8081%Z
  /\ port (Some EmptyString) = Some 8081%Z.
Proof.
  intros Hs Hnone. split; [ | split; reflexivity ].
  unfold port. rewrite (portText_not_empty s Hs). unfold parseInt.
  now rewrite (read_digits_none _ Hnone).
Qed.

Lemma port_is_not_a_number_witness :
  "http" <> EmptyString
  /\ JSON.ends_digits (without_sign (trim_start "http"))
  /\ port (Some "http") = None.
Proof.
  assert (H1 : "http" <> EmptyString) by discriminate.
  assert (H2 : JSON.ends_digits (without_sign (trim_start "http"))) by reflexivity.
  split; [ exact H1 | ]. split; [ exact H2 | ].
  exact (proj1 (port_is_not_a_number "http" H1 H2)).
Defined.

End PortFacts.

(* ===================================================================== *)
(** * Reading the date-time back *)
(* ===================================================================== *)

Module InstantFacts.
Import Date Rfc3339 JsonFacts.
Local Arguments String.append !s1 s2 : simpl nomatch.
Local Open Scope Z_scope.

Lemma days_from_civil_from_days (days : Z) :
  let '(y, m, d) := civil_from_days days in days_from_civil y m d = days.
Proof.
  unfold civil_from_days, days_from_civil.
  set (z := days + 719468).
  set (era := z / 146097).
  set (doe := z - era * 146097).
  set (yoe := (doe - doe / 1460 + doe / 36524 - doe / 146096) / 365).
  set (doy := doe - (365 * yoe + yoe / 4 - yoe / 100)).
  set (mp := (5 * doy + 2) / 153).
  assert (Hdoe : 0 <= doe <= 146096).
  { subst doe era. pose proof (Z.mod_pos_bound z 146097 ltac:(lia)) as H.
    rewrite Z.mod_eq in H by lia. lia. }
  assert (Hyoe : 0 <= yoe <= 399).
  { subst yoe. Z.div_mod_to_equations. lia. }
  assert (Hdoy : 0 <= doy <= 365).
  { subst doy yoe. Z.div_mod_to_equations. lia. }
  assert (Hmp : 0 <= mp <= 11).
  { subst mp. Z.div_mod_to_equations. lia. }
  set (m := if mp <? 10 then mp + 3 else mp - 9).
  assert (Hm : (if m <=? 2 then m + 9 else m - 3) = mp).
  { subst m. destruct (mp <? 10) eqn:E;
      [ apply Z.ltb_lt in E | apply Z.ltb_ge in E ].
    - destruct (mp + 3 <=? 2) eqn:E'; [ apply Z.leb_le in E' | ]; lia.
    - destruct (mp - 9 <=? 2) eqn:E'; [ | apply Z.leb_gt in E' ]; lia. }
  rewrite Hm.
  assert (Hy : (if m <=? 2
                then yoe + era * 400 + (if m <=? 2 then 1 else 0) - 1
                else yoe + era * 400 + (if m <=? 2 then 1 else 0))
               = yoe + era * 400).
  { destruct (m <=? 2); lia. }
  rewrite Hy.
  assert (Hera : (yoe + era * 400) / 400 = era).
  { rewrite Z.div_add by lia. rewrite Z.div_small by lia. lia. }
  rewrite Hera. replace (yoe + era * 400 - era * 400) with yoe by lia.
  clearbody mp yoe era. subst doy doe z. lia.
Qed.

Lemma year_of_era_last (doe : Z) :
  0 <= doe <= 146096 -> 146037 <= doe ->
  (doe - doe / 1460 + doe / 36524 - doe / 146096) / 365 = 399.
Proof. intros. Z.div_mod_to_equations. lia. Qed.

Lemma year_of_era_399 (doe : Z) :
  0 <= doe <= 146036 ->
  (doe - doe / 1460 + doe / 36524 - doe / 146096) / 365 = 399 -> 145731 <= doe.
Proof. intros. Z.div_mod_to_equations. lia. Qed.

Lemma month_of_day_late (doy : Z) : 306 <= doy <= 365 -> 10 <= (5 * doy + 2) / 153 <= 11.
Proof. intros. Z.div_mod_to_equations. lia. Qed.

Lemma month_of_day_early (doy : Z) : 0 <= doy <= 305 -> 0 <= (5 * doy + 2) / 153 < 10.
Proof. intros. Z.div_mod_to_equations. lia. Qed.

Lemma year_of_era_range (doe : Z) :
  0 <= doe <= 146096 ->
  let yoe := (doe - doe / 1460 + doe / 36524 - doe / 146096) / 365 in
  let doy := doe - (365 * yoe + yoe / 4 - yoe / 100) in
  let mp := (5 * doy + 2) / 153 in
  0 <= yoe <= 399 /\ 0 <= mp <= 11
  /\ (146037 <= doe -> yoe = 399 /\ 10 <= mp)
  /\ (doe <= 146036 -> yoe = 399 -> mp < 10).
Proof.
  intros Hdoe yoe doy mp.
  assert (Hyoe : 0 <= yoe <= 399) by (subst mp doy yoe; Z.div_mod_to_equations; lia).
  assert (Hdoy : 0 <= doy <= 365) by (subst mp doy yoe; Z.div_mod_to_equations; lia).
  assert (Hmp : 0 <= mp <= 11) by (subst mp; clearbody doy; Z.div_mod_to_equations; lia).
  split; [ exact Hyoe | ]. split; [ exact Hmp | ]. split.
  - intros Hd.
    assert (Hy : yoe = 399) by (apply year_of_era_last; assumption).
    split; [ exact Hy | ].
    assert (306 <= doy <= 365)
      by (split; [ subst mp doy; rewrite Hy; change (399 / 4) with 99;
                   change (399 / 100) with 3; lia | lia ]).
    now apply month_of_day_late.
  - intros Hd Hy.
    assert (145731 <= doe) by (apply year_of_era_399; [ lia | exact Hy ]).
    assert (0 <= doy <= 305)
      by (split; [ lia | subst mp doy; rewrite Hy; change (399 / 4) with 99;
                         change (399 / 100) with 3; lia ]).
    now apply month_of_day_early.
Qed.

(** The dates of the years 0000 to 9999. *)
Lemma civil_year_range (days : Z) :
  -719528 <= days < 2932897 ->
  let '(y, m, d) := civil_from_days days in 0 <= y <= 9999.
Proof.
  intros Hdays. unfold civil_from_days.
  set (z := days + 719468).
  set (era := z / 146097).
  set (doe := z - era * 146097).
  assert (Hz : -60 <= z < 3652365) by (subst z; lia).
  assert (Hera : -1 <= era <= 24 /\ 0 <= doe <= 146096
                 /\ (era = -1 -> 146037 <= doe) /\ (era = 24 -> doe <= 146036)).
  { subst doe era. clearbody z. Z.div_mod_to_equations. lia. }
  destruct Hera as (Hera & Hdoe & Hlow & Hhigh).
  pose proof (year_of_era_range doe Hdoe) as H. cbv zeta in H.
  clearbody doe era.
  set (yoe := (doe - doe / 1460 + doe / 36524 - doe / 146096) / 365) in *.
  set (doy := doe - (365 * yoe + yoe / 4 - yoe / 100)) in *.
  set (mp := (5 * doy + 2) / 153) in *.
  destruct H as (Hyoe & Hmp & Hfirst & Hlast).
  clearbody mp yoe.
  destruct (mp <? 10) eqn:E; [ apply Z.ltb_lt in E | apply Z.ltb_ge in E ].
  - destruct (mp + 3 <=? 2) eqn:E'; [ apply Z.leb_le in E'; lia | ].
    destruct (Z.eq_dec era (-1)) as [ Elow | Nlow ]; [ specialize (Hfirst (Hlow Elow)); lia | ].
    lia.
  - destruct (mp - 9 <=? 2) eqn:E'; [ | apply Z.leb_gt in E'; lia ].
    destruct (Z.eq_dec era 24) as [ Ehigh | Nhigh ]; [ | lia ].
    destruct (Z.eq_dec yoe 399) as [ Hy | Hy ]; [ | lia ].
    specialize (Hlast (Hhigh Ehigh) Hy). lia.
Qed.

Lemma digit_value_digit_char (n : Z) : digit_value (digit_char n) = Some (n mod 10).
Proof.
  unfold digit_char.
  pose proof (Z.mod_pos_bound n 10 ltac:(lia)) as Hk.
  set (k := n mod 10) in *.
  assert (Hcases : k = 0 \/ k = 1 \/ k = 2 \/ k = 3 \/ k = 4 \/ k = 5 \/ k = 6
                   \/ k = 7 \/ k = 8 \/ k = 9) by lia.
  repeat (destruct Hcases as [ -> | Hcases ]; [ reflexivity | ]).
  now rewrite Hcases.
Qed.

Lemma read_number_app (w1 w2 : nat) (acc : Z) (s : string) :
  read_number (w1 + w2) acc s
  = match read_number w1 acc s with
    | Some (a, r) => read_number w2 a r
    | None => None
    end.
Proof.
  revert acc s. induction w1 as [ | w1 IH ]; intros acc s; [ reflexivity | ].
  cbn [Nat.add read_number]. destruct s as [ | c r ]; [ reflexivity | ].
  destruct (digit_value c); cbn [mbind option_bind]; [ apply IH | reflexivity ].
Qed.

(** Reading back what [pad] has written. *)
Lemma read_number_pad (w : nat) (n acc : Z) (rest : string) :
  read_number w acc (pad w n +:+ rest)
  = Some (acc * 10 ^ Z.of_nat w + n mod 10 ^ Z.of_nat w, rest).
Proof.
  revert n acc rest. induction w as [ | w IH ]; intros n acc rest.
  - cbn [read_number pad String.append]. do 2 f_equal.
    change (10 ^ Z.of_nat 0) with 1. rewrite Z.mod_1_r. lia.
  - cbn [pad]. rewrite append_assoc.
    replace (S w) with (w + 1)%nat at 1 by lia.
    rewrite read_number_app, IH.
    cbn [read_number String.append]. rewrite digit_value_digit_char.
    cbn [mbind option_bind]. do 2 f_equal.
    rewrite Nat2Z.inj_succ, Z.pow_succ_r by lia.
    rewrite (Z.rem_mul_r n 10 (10 ^ Z.of_nat w)) by lia. lia.
Qed.

Lemma read_field (w : nat) (n : Z) (rest : string) :
  0 <= n < 10 ^ Z.of_nat w ->
  read_number w 0 (pad w n +:+ rest) = Some (n, rest).
Proof.
  intros Hn. rewrite read_number_pad. do 2 f_equal.
  rewrite Z.mod_small by exact Hn. lia.
Qed.

Lemma time_of_day (ms : Z) :
  0 <= ms < 86400000 ->
  ms / 3600000 * 3600000 + ms / 60000 mod 60 * 60000 + ms / 1000 mod 60 * 1000
  + ms mod 1000 = ms.
Proof. intros. Z.div_mod_to_equations. lia. Qed.

(** The instant of the text [toISOString] writes, for the years 0000 to
    9999, is the time value it was written from. *)
Lemma instant_toISOString (t : Z) :
  -62167219200000 <= t < 253402300800000 ->
  instant (toISOString t) = Some t.
Proof.
  intros Ht.
  assert (Hdays : -719528 <= t / msPerDay < 2932897).
  { unfold msPerDay. Z.div_mod_to_equations. lia. }
  pose proof (civil_year_range _ Hdays) as Hyear.
  pose proof (DateFacts.civil_from_days_range (t / msPerDay)) as Hrange.
  pose proof (days_from_civil_from_days (t / msPerDay)) as Hinverse.
  pose proof (Z.mod_pos_bound t msPerDay ltac:(reflexivity)) as Hms.
  pose proof (time_of_day (t mod msPerDay) Hms) as Htime.
  pose proof (Z.div_mod t msPerDay ltac:(discriminate)) as Hsplit.
  unfold toISOString.
  destruct (civil_from_days (t / msPerDay)) as [[y m] d].
  destruct Hrange as [Hm Hd].
  set (ms := t mod msPerDay) in *.
  assert (Hh : 0 <= ms / 3600000 < 24).
  { unfold msPerDay in Hms. clearbody ms. Z.div_mod_to_equations. lia. }
  pose proof (Z.mod_pos_bound (ms / 60000) 60 ltac:(lia)) as Hmi.
  pose proof (Z.mod_pos_bound (ms / 1000) 60 ltac:(lia)) as Hsec.
  pose proof (Z.mod_pos_bound ms 1000 ltac:(lia)) as Hmsec.
  unfold year_string.
  replace ((0 <=? y) && (y <=? 9999)) with true
    by (symmetry; apply andb_true_iff; split; apply Z.leb_le; lia).
  unfold instant.
  rewrite read_field by (change (10 ^ Z.of_nat 4) with 10000; lia).
  cbn [mbind option_bind]. rewrite expect_append. cbn [mbind option_bind].
  rewrite read_field by (change (10 ^ Z.of_nat 2) with 100; lia).
  cbn [mbind option_bind]. rewrite expect_append. cbn [mbind option_bind].
  rewrite read_field by (change (10 ^ Z.of_nat 2) with 100; lia).
  cbn [mbind option_bind]. rewrite expect_append. cbn [mbind option_bind].
  rewrite read_field by (change (10 ^ Z.of_nat 2) with 100; lia).
  cbn [mbind option_bind]. rewrite expect_append. cbn [mbind option_bind].
  rewrite read_field by (change (10 ^ Z.of_nat 2) with 100; lia).
  cbn [mbind option_bind]. rewrite expect_append. cbn [mbind option_bind].
  rewrite read_field by (change (10 ^ Z.of_nat 2) with 100; lia).
  cbn [mbind option_bind]. rewrite expect_append. cbn [mbind option_bind].
  rewrite read_field by (change (10 ^ Z.of_nat 3) with 1000; lia).
  cbn [mbind option_bind].
  change (JSON.expect "Z" "Z") with (Some EmptyString).
  cbn [mbind option_bind JSON.is_empty].
  f_equal. rewrite Hinverse. clearbody ms. lia.
Qed.

End InstantFacts.

(* ===================================================================== *)
(** * The clock, the health check and the preflight *)
(* ===================================================================== *)

Module AppFacts.
Import ResponseFormatter NSApiService NSHttpServer Sessions Express.

(** X20.  The date-time of get_current_time_in_rfc3339 is the clock of the
    server read in UTC: for a clock in the years 0000 to 9999 the tool
    returns the success formatting of a payload whose [datetime], read back
    as the UTC date-time it is written as, is the instant of the clock to
    the millisecond, and whose [timezone] is the constant Europe/Amsterdam;
    nothing is sent upstream. *)
Theorem currentTime_reads_back (srv : Server) (rawArgs : json) (log : list HttpGet) :
  (-62167219200000 <= clock srv < 253402300800000)%Z ->
  exists payload datetime,
    switch srv "get_current_time_in_rfc3339" rawArgs log
    = (Ok (formatSuccess payload), log)
    /\ field payload "datetime" = Some (JStr datetime)
    /\ Rfc3339.instant datetime = Some (clock srv)
    /\ field payload "timezone" = Some (JStr "Europe/Amsterdam").
Proof.
  intros Hclock.
  exists (currentTimePayload (clock srv)), (Date.toISOString (clock srv)).
  split; [ reflexivity | ]. split; [ reflexivity | ]. split; [ | reflexivity ].
  now apply InstantFacts.instant_toISOString.
Qed.

Lemma currentTime_reads_back_witness :
  let srv := {| nsApiService := {| apiKey := None; axiosInstance := fun _ => Ok JNull |};
                clock := 1767225600123 |} in
  (-62167219200000 <= clock srv < 253402300800000)%Z
  /\ exists payload datetime,
       switch srv "get_current_time_in_rfc3339" (JObj []) []
       = (Ok (formatSuccess payload), [])
       /\ field payload "datetime" = Some (JStr datetime)
       /\ Rfc3339.instant datetime = Some (clock srv)
       /\ field payload "timezone" = Some (JStr "Europe/Amsterdam").
Proof.
  intros srv.
  assert (H : (-62167219200000 <= clock srv < 253402300800000)%Z)
    by (split; [ discriminate | reflexivity ]).
  split; [ exact H | exact (currentTime_reads_back srv (JObj []) [] H) ].
Defined.

Section App.

Variable isInitializeRequest : json -> bool.
Variable connect : Transport -> Result unit.
Variable handleRequest : Transport -> HttpRequest -> list Callback * Outcome.
Variable takes : HttpMethod -> string -> Incoming -> bool.
Variable notFound : Incoming -> HttpResponse.

(** X21.  The health check reports the clock and touches nothing: a request
    past the body parser that the route GET /health takes, whatever session
    identifier and body it carries, is answered 200 with the CORS headers
    and the object
    {status: healthy, timestamp}, where the timestamp has the ISO-8601 form
    and, read back, is the instant of the clock; the sessions are as they
    were and the transport is not asked. *)
Theorem health_reports_the_clock (now : Z) (st : State) (req : Incoming) :
  verb req <> "OPTIONS" ->
  takes GET "/health" req = true ->
  (-62167219200000 <= now < 253402300800000)%Z ->
  exists timestamp,
    (forall isInitializeRequest' connect' handleRequest',
        app isInitializeRequest' connect' handleRequest' takes notFound now st
          (Parsed req)
        = (st, {| responseHeaders := corsHeaders;
                  sent := {| status := 200;
                             content := JsonBody (JObj [("status", JStr "healthy");
                                                        ("timestamp", JStr timestamp)]) |} |}))
    /\ Date.is_iso8601 timestamp = true
    /\ Rfc3339.instant timestamp = Some now.
Proof.
  intros Hverb Htakes Hnow. exists (Date.toISOString now).
  split; [ | split ].
  - intros i c h. unfold app, cors, routes.
    destruct (String.eqb_spec (verb req) "OPTIONS"); [ contradiction | ].
    now rewrite Htakes.
  - apply DateFacts.toISOString_shape.
  - now apply InstantFacts.instant_toISOString.
Qed.

(** X22.  A preflight that is past the body parser stops at the CORS
    middleware: an OPTIONS request on any path, with any session
    identifier, is answered 200 with the body OK and the CORS headers, and
    no route runs, so the sessions are as they were.  Every response to a
    request past the parser, the one to a DELETE that its route serves
    included, carries the same five CORS headers, whose list of allowed
    methods is GET, POST, OPTIONS and does not name DELETE.  A request
    whose body [express.json()] refuses, a preflight included, reaches
    neither the CORS middleware nor a route: the answer is the one of
    Express's error handler, without any of the CORS headers, and the
    sessions are as they were. *)
Theorem preflight_stops_at_cors (now : Z) (st : State) (req : Incoming) :
  (verb req = "OPTIONS" ->
   forall isInitializeRequest' connect' handleRequest' takes' notFound',
     app isInitializeRequest' connect' handleRequest' takes' notFound' now st
       (Parsed req)
     = (st, {| responseHeaders := corsHeaders;
               sent := {| status := 200; content := TextBody "OK" |} |}))
  /\ responseHeaders
       (snd (app isInitializeRequest connect handleRequest takes notFound now st
               (Parsed req)))
     = corsHeaders
  /\ In ("Access-Control-Allow-Methods", "GET, POST, OPTIONS") corsHeaders
  /\ mentions "DELETE" "GET, POST, OPTIONS" = false
  /\ (verb req <> "OPTIONS" ->
      takes GET "/health" req = false -> takes POST "/mcp" req = false ->
      takes GET "/mcp" req = false -> takes DELETE "/mcp" req = true ->
      sent (snd (app isInitializeRequest connect handleRequest takes notFound now st
                   (Parsed req)))
      = snd (deleteMcp handleRequest st (routed DELETE req)))
  /\ (forall answer,
         app isInitializeRequest connect handleRequest takes notFound now st
           (Refused answer)
         = (st, {| responseHeaders := []; sent := answer |})
         /\ forall header,
              In header corsHeaders ->
              ~ In header
                  (responseHeaders
                     (snd (app isInitializeRequest connect handleRequest takes notFound
                             now st (Refused answer))))).
Proof.
  split; [ | split; [ | split; [ | split; [ | split ] ] ] ].
  - intros Hverb i c h t n. unfold app, cors. now rewrite Hverb.
  - unfold app, cors. destruct (String.eqb (verb req) "OPTIONS"); [ reflexivity | ].
    now destruct (routes _ _ _ _ _ _ _ _).
  - cbn [corsHeaders In]. tauto.
  - reflexivity.
  - intros Hverb H1 H2 H3 H4. unfold app, cors, routes.
    destruct (String.eqb_spec (verb req) "OPTIONS"); [ contradiction | ].
    rewrite H1, H2, H3, H4.
    now destruct (deleteMcp handleRequest st (routed DELETE req)).
  - intros answer. split; [ reflexivity | ].
    intros header _ Hin. exact Hin.
Qed.

End App.

Lemma health_reports_the_clock_witness :
  let takes :=
    fun (m : HttpMethod) (route : string) (req : Incoming) =>
      String.eqb (verb req) (match m with POST => "POST" | GET => "GET" | DELETE => "DELETE" end)
      && String.eqb (path req) route in
  let notFound := fun _ : Incoming => {| status := 404; content := TextBody "Not Found" |} in
  let req := {| verb := "GET"; path := "/health"; mcpSessionId := Some "a1";
                parsedBody := JObj [] |} in
  let st := {| transports := {[ "a1" := {| serial := 0; sessionId := Some "a1" |} ]};
               constructed := 1 |} in
  verb req <> "OPTIONS"
  /\ takes GET "/health" req = true
  /\ exists timestamp,
       (forall isInitializeRequest' connect' handleRequest',
           app isInitializeRequest' connect' handleRequest' takes notFound 86400000 st
             (Parsed req)
           = (st, {| responseHeaders := corsHeaders;
                     sent := {| status := 200;
                                content := JsonBody (JObj [("status", JStr "healthy");
                                                           ("timestamp", JStr timestamp)]) |} |}))
       /\ Date.is_iso8601 timestamp = true
       /\ Rfc3339.instant timestamp = Some 86400000%Z.
Proof.
  intros takes notFound req st.
  assert (H1 : verb req <> "OPTIONS") by discriminate.
  assert (H2 : takes GET "/health" req = true) by reflexivity.
  split; [ exact H1 | ]. split; [ exact H2 | ].
  assert (H3 : (-62167219200000 <= 86400000 < 253402300800000)%Z)
    by (split; [ discriminate | reflexivity ]).
  exact (health_reports_the_clock takes notFound 86400000 st req H1 H2 H3).
Defined.

End AppFacts.
